(** * The NodeNumber scoring plugin (simulator/pkg/nodenumber/plugin.go)

    A shallow embedding of the scoring pipeline of the plugin: the
    PreScore stage that extracts the digit suffix of a pod name, the
    telemetry fetch [GetData], the location lookups [GetLocationData] and
    [GetLocationBatteryCharge], the blending formula of [Score] and the
    constructor [New].

    Conventions of the embedding:
    - a Go [string] is a sequence of bytes: [String.string];
    - a Go [float64] is an IEEE 754 binary64 value: [spec_float] with
      precision 53 and maximal exponent 1024, every operation rounding to
      nearest even as the Go specification requires;
    - a Go [int] or [int64] is a [Z];
    - a run-time panic is an explicit outcome of the [exec] type;
    - the functions of other packages that the plugin calls
      ([math.Pow], [json.Unmarshal], the conversion of an unrepresentable
      float to an integer) are the fields of the class [Externals];
    - the answer of the network to the one GET request of [GetData] is an
      explicit argument, [http_outcome]. *)

From Stdlib Require Import ZArith Ascii String Floats.SpecFloat.
From stdpp Require Import gmap strings list fin_maps.

Local Open Scope Z_scope.

(** ** Go run-time outcomes *)

Inductive panic : Type :=
  | IndexOutOfRange (index len : Z)
  | SliceBoundsOutOfRange (low len : Z).

Inductive exec (A : Type) : Type :=
  | Done (a : A)
  | Panic (p : panic).

Arguments Done {A} a.
Arguments Panic {A} p.

#[global] Instance exec_ret : MRet exec := fun A a => Done a.

#[global] Instance exec_bind : MBind exec := fun A B k x =>
  match x with
  | Done a => k a
  | Panic p => Panic p
  end.

Definition panics {A : Type} (x : exec A) : Prop :=
  match x with
  | Done _ => False
  | Panic _ => True
  end.

(** The value of the Go interface type [error]; [None] is [nil]. *)
Inductive error_value : Type :=
  | TransportFailure (msg : string)
  | BodyReadFailure (msg : string)
  | DecodeFailure (msg : string).

Definition error := option error_value.

(** [*framework.Status]: the [nil] status means success. *)
Inductive Status : Type :=
  | StatusNil
  | StatusError (reason : string).

Definition IsSuccess (s : Status) : bool :=
  match s with
  | StatusNil => true
  | StatusError _ => false
  end.

(** ** Slices *)

Section Slices.
Context {A : Type}.

(** [slices.IndexFunc]: the first index whose element satisfies [f],
    or [-1]. *)
Fixpoint IndexFunc (s : list A) (f : A → bool) : Z :=
  match s with
  | [] => -1
  | x :: s' =>
      if f x then 0
      else let i := IndexFunc s' f in
           if i <? 0 then -1 else i + 1
  end.

(** The index expression [s[i]], with its bounds check. *)
Definition index (s : list A) (i : Z) : exec A :=
  if (0 <=? i) && (i <? Z.of_nat (length s)) then
    match s !! Z.to_nat i with
    | Some x => Done x
    | None => Panic (IndexOutOfRange i (Z.of_nat (length s)))
    end
  else Panic (IndexOutOfRange i (Z.of_nat (length s))).
End Slices.

(** The slice expression [s[low:]] on a string. *)
Definition string_from (s : string) (low : Z) : exec string :=
  let n := Z.of_nat (String.length s) in
  if (0 <=? low) && (low <=? n) then
    Done (String.substring (Z.to_nat low) (Z.to_nat (n - low)) s)
  else Panic (SliceBoundsOutOfRange low n).

(** ** binary64 *)

Definition prec : Z := 53.
Definition emax : Z := 1024.

Definition float64 := spec_float.

Definition fadd : float64 → float64 → float64 := SFadd prec emax.
Definition fsub : float64 → float64 → float64 := SFsub prec emax.
Definition fmul : float64 → float64 → float64 := SFmul prec emax.
Definition fdiv : float64 → float64 → float64 := SFdiv prec emax.

(** The float64 nearest to an integer constant. *)
Definition of_Z (n : Z) : float64 := binary_normalize prec emax n 0 false.

(** The float64 nearest to [n * 2^e]. *)
Definition of_Z_exp (n e : Z) : float64 := binary_normalize prec emax n e false.

Definition is_nan (x : float64) : bool :=
  match x with S754_nan => true | _ => false end.

Definition is_finite (x : float64) : bool :=
  match x with S754_zero _ | S754_finite _ _ _ => true | _ => false end.

Definition is_zero (x : float64) : bool :=
  match x with S754_zero _ => true | _ => false end.

(** [math.E], the float64 nearest to Euler's number. *)
Definition math_E : float64 := S754_finite false 6121026514868073 (-51).

(** [math.Round]: the nearest integer, halves away from zero;
    [Round(±0) = ±0], [Round(±Inf) = ±Inf], [Round(NaN) = NaN]. *)
Definition math_Round (x : float64) : float64 :=
  match x with
  | S754_finite s m e =>
      if 0 <=? e then x
      else
        let n := (Z.pos m + 2 ^ (- e - 1)) / 2 ^ (- e) in
        if n =? 0 then S754_zero s
        else binary_normalize prec emax (if s then - n else n) 0 s
  | _ => x
  end.

(** The integer part of a finite float64, truncated toward zero. *)
Definition truncate (x : float64) : option Z :=
  match x with
  | S754_zero _ => Some 0
  | S754_finite s m e =>
      let a := if 0 <=? e then Z.pos m * 2 ^ e else Z.pos m / 2 ^ (- e) in
      Some (if s then - a else a)
  | _ => None
  end.

Definition int64_min : Z := - 2 ^ 63.
Definition int64_max : Z := 2 ^ 63 - 1.

(** ** Data of the plugin *)

Record LocationData : Type := {
  Time : string;
  BatteryCharge : float64;
  RenewableOutput : float64;
  PrimaryLoad : float64;
  UnmetLoad : float64;
  Location : string;
}.

(** [v1.Node], reduced to the fields the plugin reads. *)
Record Node : Type := {
  node_Name : string;
  node_Labels : gmap string string;
}.

(** [framework.NodeInfo]; [Node()] returns its node. *)
Record NodeInfo : Type := {
  NodeInfo_Node : Node;
}.

(** [v1.Pod], reduced to its name. *)
Record Pod : Type := {
  pod_Name : string;
}.

(** [preScoreState], computed at PreScore. *)
Record preScoreState : Type := {
  podSuffixNumber : Z;
}.

(** [framework.CycleState]: the per-cycle store, from state keys to
    state data. *)
Abbreviation CycleState := (gmap string preScoreState).

(** [framework.Handle]: [SnapshotSharedLister().NodeInfos().List()] is the
    only thing the plugin asks of it. *)
Record Handle : Type := {
  SnapshotNodeInfos : list NodeInfo;
}.

Record NodeNumber : Type := {
  fh : Handle;
  reverse : bool;
}.

Definition Name : string := "NodeNumber".
Definition preScoreStateKey : string := "PreScore" +:+ Name.

(** ** Functions of other packages *)

Class Externals := {
  (** [math.Pow] *)
  math_Pow : float64 → float64 → float64;
  (** [json.Unmarshal] of a response body into a [[]LocationData]: the
      decoded slice, or the error. *)
  json_Unmarshal : string → list LocationData + error_value;
  (** The conversion [int64(x)] of a float64 whose integer part is not in
      the range of [int64] (NaN, an infinity, a value too large): Go
      leaves the result to the implementation. *)
  int64_unrepresentable : float64 → Z;
}.

(** The conversion [int64(x)]: the fraction is discarded. *)
Definition int64_of_float64 `{Externals} (x : float64) : Z :=
  match truncate x with
  | Some n =>
      if (int64_min <=? n) && (n <=? int64_max) then n
      else int64_unrepresentable x
  | None => int64_unrepresentable x
  end.

(** [strconv.Atoi]: an optional sign and decimal digits; [None] is the
    error result (bad syntax, or a value out of the range of [int]). *)
Definition digit_of (c : ascii) : option Z :=
  let n := Z.of_N (N_of_ascii c) in
  if (48 <=? n) && (n <=? 57) then Some (n - 48) else None.

Fixpoint digits_value (acc : Z) (s : string) : option Z :=
  match s with
  | EmptyString => Some acc
  | String c s' =>
      match digit_of c with
      | Some d => digits_value (acc * 10 + d) s'
      | None => None
      end
  end.

Definition Atoi (s : string) : option Z :=
  let unsigned (t : string) :=
    match t with
    | EmptyString => None
    | _ => digits_value 0 t
    end in
  let r :=
    match s with
    | String "-" t => Z.opp <$> unsigned t
    | String "+" t => unsigned t
    | _ => unsigned s
    end in
  match r with
  | Some n => if (int64_min <=? n) && (n <=? int64_max) then Some n else None
  | None => None
  end.

(** The byte of the decimal digit [d]. *)
Definition digit_char (d : Z) : ascii := ascii_of_N (Z.to_N (48 + d)).

Fixpoint last_byte (s : string) : option ascii :=
  match s with
  | EmptyString => None
  | String c EmptyString => Some c
  | String _ s' => last_byte s'
  end.

(** ** The network *)

(** What the GET request of [GetData] meets: [http.Get] fails, or it
    answers and [io.ReadAll] of the body fails, or the body is read. *)
Inductive http_outcome : Type :=
  | GetFails (err : error_value)
  | ReadAllFails (err : error_value)
  | BodyRead (body : string).

(** The white space of JSON: space, tab, line feed, carriage return. *)
Definition json_space (c : ascii) : bool :=
  let n := N_of_ascii c in
  (n =? 32)%N || (n =? 9)%N || (n =? 10)%N || (n =? 13)%N.

(** A JSON array begins, after white space, with an opening bracket:
    whether a body opens as an array. Every body that parses as a JSON
    array does. *)
Fixpoint json_array_opening (body : string) : bool :=
  match body with
  | EmptyString => false
  | String c rest =>
      if json_space c then json_array_opening rest
      else (N_of_ascii c =? 91)%N
  end.

(** ** The plugin *)

Section Plugin.
Context `{Externals}.

Definition GetData (net : http_outcome) : list LocationData * error :=
  match net with
  | GetFails err => ([], Some err)
  | ReadAllFails err => ([], Some err)
  | BodyRead body =>
      match json_Unmarshal body with
      | inr err => ([], Some err)
      | inl data => (data, None)
      end
  end.

(** [func(d LocationData) bool { return d.Location == loc }] *)
Definition located (loc : string) (d : LocationData) : bool :=
  bool_decide (Location d = loc).

(** [func(n *framework.NodeInfo) bool { return n.Node().Name == nodeName }] *)
Definition named (nodeName : string) (n : NodeInfo) : bool :=
  bool_decide (node_Name (NodeInfo_Node n) = nodeName).

Definition GetLocationData (loc : string) (data : list LocationData) : exec LocationData :=
  let idx := IndexFunc data (located loc) in
  index data idx.

Definition GetLocationBatteryCharge (loc : string) (data : list LocationData) : exec float64 :=
  let idx := IndexFunc data (located loc) in
  d ← index data idx;
  Done (BatteryCharge d).

(** A missing key of a Go map reads as the zero value. *)
Definition label (labels : gmap string string) (key : string) : string :=
  default EmptyString (labels !! key).

(** The float64 expression that [Score] converts to [int64]. The
    constant expression [-0.05*100] is evaluated exactly by the
    compiler, as every Go constant expression is: it is [-5]. Fusing a
    product with the sum, which Go allows, gives the same value, a
    product of a rounded number by 0.5 being exact. *)
Definition blend (d : LocationData) : float64 :=
  let renewDiff := fdiv (fsub (RenewableOutput d) (PrimaryLoad d)) (PrimaryLoad d) in
  let renewScore :=
    fdiv (of_Z 100)
         (fadd (of_Z 1) (math_Pow math_E (fmul (of_Z (-5)) renewDiff))) in
  fadd (fmul (math_Round renewScore) (of_Z_exp 1 (-1)))
       (fmul (fsub (math_Round (BatteryCharge d)) (of_Z 20)) (of_Z_exp 1 (-1))).

Definition Score (pl : NodeNumber) (net : http_outcome)
    (state : CycleState) (pod : Pod) (nodeName : string) : exec (Z * Status) :=
  let '(apiData, apierr) := GetData net in
  match apierr with
  | Some _ => Done (22, StatusNil)
  | None =>
      let nodeList := SnapshotNodeInfos (fh pl) in
      let idx := IndexFunc nodeList (named nodeName) in
      n ← index nodeList idx ;
      let location := label (node_Labels (NodeInfo_Node n)) "location" in
      LocationData ← GetLocationData location apiData ;
      Done (int64_of_float64 (blend LocationData), StatusNil)
  end.

Definition PreScore (pl : NodeNumber) (state : CycleState) (pod : Pod)
    (nodes : list NodeInfo) : exec (CycleState * Status) :=
  podNameLastChar ←
    string_from (pod_Name pod) (Z.of_nat (String.length (pod_Name pod)) - 1) ;
  match Atoi podNameLastChar with
  | None => Done (state, StatusNil)
  | Some podnum =>
      let s := {| podSuffixNumber := podnum |} in
      Done (<[preScoreStateKey := s]> state, StatusNil)
  end.

End Plugin.

(** ** The construction of the plugin *)

(** [NodeNumberArgs], the arguments of the plugin. *)
Record NodeNumberArgs : Type := {
  Reverse : bool;
}.

(** [frameworkruntime.DecodeInto] on the raw arguments of the profile (a
    [runtime.Object]): the structure it decodes into, as it leaves it, or
    the message of the error. *)
Class ArgsDecoder := {
  runtime_Object : Type;
  DecodeInto : runtime_Object → NodeNumberArgs → NodeNumberArgs + string;
}.

(** [New]: [arg] is [None] for a nil argument. The result is the plugin
    and the error, of which exactly one is nil; the error carries the
    message of [xerrors.Errorf]. *)
Definition New `{ArgsDecoder} (arg : option runtime_Object) (h : Handle)
    : option NodeNumber * option string :=
  let typedArg := {| Reverse := false |} in
  match arg with
  | Some a =>
      match DecodeInto a typedArg with
      | inr err => (None, Some ("decode arg into NodeNumberArgs: " +:+ err))
      | inl typedArg' => (Some {| fh := h; reverse := Reverse typedArg' |}, None)
      end
  | None => (Some {| fh := h; reverse := Reverse typedArg |}, None)
  end.

(** What [Score] reads of a node of the snapshot: its name and its
    location label. *)
Definition same_view (n n' : NodeInfo) : Prop :=
  node_Name (NodeInfo_Node n) = node_Name (NodeInfo_Node n') ∧
  default EmptyString (node_Labels (NodeInfo_Node n) !! "location") =
  default EmptyString (node_Labels (NodeInfo_Node n') !! "location").

(** What [Score] reads of a telemetry record: the location, the battery
    charge, the renewable output and the load. *)
Definition same_reading (d d' : LocationData) : Prop :=
  Location d = Location d' ∧ BatteryCharge d = BatteryCharge d' ∧
  RenewableOutput d = RenewableOutput d' ∧ PrimaryLoad d = PrimaryLoad d'.

(** ** The scoring function, as the specification words it

    [score(record)], steps 1 to 3 of the specification, on float64. *)

Section SpecScoring.
Context `{Externals}.

(** Step 1: [renewDiff = (renewableOutput − primaryLoad) / primaryLoad]. *)
Definition spec_renewDiff (d : LocationData) : float64 :=
  fdiv (fsub (RenewableOutput d) (PrimaryLoad d)) (PrimaryLoad d).

(** Step 2: [renewScore = 100 / (1 + e^(−5 * renewDiff))]. *)
Definition spec_renewScore (d : LocationData) : float64 :=
  fdiv (of_Z 100)
       (fadd (of_Z 1) (math_Pow math_E (fmul (of_Z (-5)) (spec_renewDiff d)))).

End SpecScoring.

(** The host's band of valid scores, [framework.MinNodeScore] to
    [framework.MaxNodeScore]. *)
Definition MinNodeScore : Z := 0.
Definition MaxNodeScore : Z := 100.

Definition in_band (score : Z) : Prop := MinNodeScore <= score <= MaxNodeScore.

(** ** A model of the other packages

    An instance of [Externals] on which the plugin can be run: [math.Pow]
    at base [math.E] by a fixed-point Taylor series, the decoder on the
    payloads of the examples below, and the [int64] conversion of the
    amd64 port. *)

Module Model.

(** [floor (ln 2 * 2^120)] *)
Definition LN2 : Z := 921350637599661305226344307672478454.

Definition fixed_one : Z := 2 ^ 120.

(** A finite float64 as a fixed-point number, scaled by [2^120]. *)
Definition to_fixed (s : bool) (m : positive) (e : Z) : Z :=
  let a := if 0 <=? e + 120 then Z.pos m * 2 ^ (e + 120)
           else Z.pos m / 2 ^ (- (e + 120)) in
  if s then - a else a.

(** [sum (r^i / i!)] for [i = n, n+1, ...], [fuel] terms, from the
    [n]th term [term]. *)
Fixpoint taylor (fuel : nat) (n : Z) (term r : Z) : Z :=
  match fuel with
  | O => 0
  | S fuel' => term + taylor fuel' (n + 1) (term * r / (fixed_one * (n + 1))) r
  end.

Definition exp_model (y : float64) : float64 :=
  match y with
  | S754_nan => S754_nan
  | S754_zero _ => of_Z 1
  | S754_infinity false => S754_infinity false
  | S754_infinity true => S754_zero false
  | S754_finite s m e =>
      if 11 <=? Z.pos (digits2_pos m) + e then
        (* 1024 <= |y| *)
        if s then S754_zero false else S754_infinity false
      else
        let Y := to_fixed s m e in
        let k := Y / LN2 in
        let r := Y - k * LN2 in
        of_Z_exp (taylor 60 0 fixed_one r) (k - 120)
  end.

Definition Pow (x y : float64) : float64 :=
  match x, y with
  | _, S754_zero _ => of_Z 1
  | S754_finite false 6121026514868073 (-51), _ => exp_model y
  | _, _ => S754_nan
  end.

Definition record (loc : string) (battery renewable load : float64) : LocationData :=
  {| Time := "2024-01-01T00:00:00Z";
     BatteryCharge := battery;
     RenewableOutput := renewable;
     PrimaryLoad := load;
     UnmetLoad := of_Z 0;
     Location := loc |}.

Definition dq : string := String (ascii_of_nat 34) EmptyString.

Definition field (key value : string) : string :=
  dq +:+ key +:+ dq +:+ ":" +:+ value.

(** The body [[{"Time":...,"Battery_charge":b,...,"Location":"dk"}]]. *)
Definition payload (battery renewable load : string) : string :=
  "[{" +:+ field "Time" (dq +:+ "2024-01-01T00:00:00Z" +:+ dq) +:+ ","
       +:+ field "Battery_charge" battery +:+ ","
       +:+ field "Renewable_output" renewable +:+ ","
       +:+ field "Primary_load" load +:+ ","
       +:+ field "Unmet_load" "0" +:+ ","
       +:+ field "Location" (dq +:+ "dk" +:+ dq) +:+ "}]".

Definition payload_empty : string := "[]".
Definition payload_sample : string := payload "80" "120" "100".
Definition payload_zero_load : string := payload "80" "120" "0".
Definition payload_overcharged : string := payload "500" "100" "100".

(** [json.Unmarshal] on the four payloads above; every other body is
    taken as malformed. *)
Definition Unmarshal (body : string) : list LocationData + error_value :=
  if bool_decide (body = payload_empty) then inl []
  else if bool_decide (body = payload_sample) then
    inl [record "dk" (of_Z 80) (of_Z 120) (of_Z 100)]
  else if bool_decide (body = payload_zero_load) then
    inl [record "dk" (of_Z 80) (of_Z 120) (of_Z 0)]
  else if bool_decide (body = payload_overcharged) then
    inl [record "dk" (of_Z 500) (of_Z 100) (of_Z 100)]
  else inr (DecodeFailure "invalid character").

#[export] Instance externals : Externals := {|
  math_Pow := Pow;
  json_Unmarshal := Unmarshal;
  int64_unrepresentable := fun _ => int64_min;
|}.

End Model.

(** A snapshot of two nodes, and a plugin on it. *)
Definition sample_node (name loc : string) : NodeInfo :=
  {| NodeInfo_Node := {| node_Name := name; node_Labels := {[ "location" := loc ]} |} |}.

Definition sample_plugin : NodeNumber :=
  {| fh := {| SnapshotNodeInfos := [sample_node "node1" "se"; sample_node "node2" "dk"] |};
     reverse := false |}.

Definition sample_pod : Pod := {| pod_Name := "pod1" |}.

(** The record that the decoder of the model gives for the location
    [dk]. *)
Definition dk_record (battery renewable load : Z) : LocationData :=
  Model.record "dk" (of_Z battery) (of_Z renewable) (of_Z load).

(** A node without labels, a plugin on it, and a plugin whose nodes carry
    a second label. *)
Definition bare_node (name : string) : NodeInfo :=
  {| NodeInfo_Node := {| node_Name := name; node_Labels := ∅ |} |}.

Definition bare_plugin : NodeNumber :=
  {| fh := {| SnapshotNodeInfos := [bare_node "node1"] |}; reverse := false |}.

Definition zoned_node (name loc zone : string) : NodeInfo :=
  {| NodeInfo_Node :=
       {| node_Name := name;
          node_Labels := <[ "zone" := zone ]> {[ "location" := loc ]} |} |}.

Definition zoned_plugin : NodeNumber :=
  {| fh := {| SnapshotNodeInfos := [zoned_node "node1" "se" "a"; zoned_node "node2" "dk" "b"] |};
     reverse := true |}.

(** The model, with a decoder that also knows the payload of a record
    whose renewable output and load are zero. *)
Module ModelIdle.
Definition payload_idle : string := Model.payload "80" "0" "0".

Definition Unmarshal (body : string) : list LocationData + error_value :=
  if bool_decide (body = payload_idle) then inl [dk_record 80 0 0]
  else Model.Unmarshal body.

#[export] Instance externals : Externals := {|
  math_Pow := Model.Pow;
  json_Unmarshal := Unmarshal;
  int64_unrepresentable := fun _ => int64_min;
|}.
End ModelIdle.

(** The model, with a decoder that also knows the body [null], which
    [json.Unmarshal] decodes into a nil slice without an error, a body of
    three records and a body with a battery charge of 30. *)
Module ModelGrid.
Definition record_text (loc battery renewable load : string) : string :=
  "{" +:+ Model.field "Time" (Model.dq +:+ "2024-01-01T00:00:00Z" +:+ Model.dq) +:+ ","
      +:+ Model.field "Battery_charge" battery +:+ ","
      +:+ Model.field "Renewable_output" renewable +:+ ","
      +:+ Model.field "Primary_load" load +:+ ","
      +:+ Model.field "Unmet_load" "0" +:+ ","
      +:+ Model.field "Location" (Model.dq +:+ loc +:+ Model.dq) +:+ "}".

Definition payload_null : string := "null".

Definition payload_three : string :=
  "[" +:+ record_text "se" "55" "10" "100" +:+ ","
      +:+ record_text "dk" "80" "120" "100" +:+ ","
      +:+ record_text "dk" "10" "5" "100" +:+ "]".

Definition payload_low_battery : string :=
  "[" +:+ record_text "dk" "30" "120" "100" +:+ "]".

Definition se_record (battery renewable load : Z) : LocationData :=
  Model.record "se" (of_Z battery) (of_Z renewable) (of_Z load).

Definition Unmarshal (body : string) : list LocationData + error_value :=
  if bool_decide (body = payload_null) then inl []
  else if bool_decide (body = payload_three) then
    inl [se_record 55 10 100; dk_record 80 120 100; dk_record 10 5 100]
  else if bool_decide (body = payload_low_battery) then inl [dk_record 30 120 100]
  else Model.Unmarshal body.

#[export] Instance externals : Externals := {|
  math_Pow := Model.Pow;
  json_Unmarshal := Unmarshal;
  int64_unrepresentable := fun _ => int64_min;
|}.
End ModelGrid.

(** A decoder of arguments on which [New] can be run: the raw arguments
    are the value of [reverse], or are malformed. *)
Module ModelArgs.
#[export] Instance decoder : ArgsDecoder := {|
  runtime_Object := option bool;
  DecodeInto := fun raw _ =>
    match raw with
    | Some b => inl {| Reverse := b |}
    | None => inr "cannot unmarshal"
    end;
|}.
End ModelArgs.

(** ** Auxiliary definitions of the proofs *)

(** Not NaN and not below zero: [+0], a positive number or [+Inf]. *)
Definition nonneg (x : float64) : bool :=
  match x with
  | S754_zero false | S754_infinity false | S754_finite false _ _ => true
  | _ => false
  end.

(** A number that is neither zero nor infinite. *)
Definition is_number (x : float64) : bool :=
  match x with S754_finite _ _ _ => true | _ => false end.

(** The float64 order [x <= y]. *)
Definition fle (x y : float64) : bool := SFleb x y.

(** The sum of the two halves, for a logistic term that rounds to [n]
    and a battery charge that rounds to [nb]. *)
Definition blend_of (n nb : Z) : float64 :=
  fadd (fmul (of_Z n) (of_Z_exp 1 (-1)))
       (fmul (fsub (of_Z nb) (of_Z 20)) (of_Z_exp 1 (-1))).

Definition blend_of_in (lo hi n nb : Z) : bool :=
  match truncate (blend_of n nb) with
  | Some z => (lo <=? z) && (z <=? hi)
  | None => false
  end.

(** 0.361 and 0.379, between which [e^-1] lies. *)
(** The integer nearest to a float64, halves away from zero; 0 for what
    is not a number. *)
Definition round_int (x : float64) : Z :=
  match x with
  | S754_finite s m e =>
      let n := if 0 <=? e then Z.pos m * 2 ^ e
               else (Z.pos m + 2 ^ (- e - 1)) / 2 ^ (- e) in
      if s then - n else n
  | _ => 0
  end.

Definition blend_of_is_quot (n nb : Z) : bool :=
  match truncate (blend_of n nb) with
  | Some z => z =? Z.quot (n + nb - 20) 2
  | None => false
  end.


(** ** Slices: the index search and the bounds check *)

Section SliceLemmas.
Context {A : Type}.
Implicit Types (s : list A) (f : A → bool).

Lemma IndexFunc_range s f : -1 <= IndexFunc s f < Z.of_nat (length s).
Proof.
  induction s as [|x s IH]; simpl; [lia|].
  destruct (f x); [lia|].
  destruct (Z.ltb_spec (IndexFunc s f) 0); lia.
Qed.

Lemma IndexFunc_absent s f :
  IndexFunc s f = -1 ↔ Forall (fun x => f x = false) s.
Proof.
  induction s as [|x s IH]; simpl.
  - split; [constructor|reflexivity].
  - pose proof (IndexFunc_range s f) as Hr.
    destruct (f x) eqn:Hx.
    + split; [lia|]. intros HF. inversion HF; congruence.
    + destruct (Z.ltb_spec (IndexFunc s f) 0) as [Hlt|Hge].
      * split; [|reflexivity]. intros _. constructor; [assumption|].
        apply IH. lia.
      * split; [lia|]. intros HF. inversion HF as [|? ? _ HF']; subst.
        apply IH in HF'. lia.
Qed.

(** When some element satisfies [f], the index is that of the first
    one. *)
Lemma IndexFunc_first s f :
  Exists (fun x => f x = true) s →
  ∃ x, s !! Z.to_nat (IndexFunc s f) = Some x ∧ f x = true
       ∧ 0 <= IndexFunc s f
       ∧ Forall (fun y => f y = false) (take (Z.to_nat (IndexFunc s f)) s).
Proof.
  induction s as [|x s IH]; intros HE; [inversion HE|].
  simpl. destruct (f x) eqn:Hx.
  - exists x. repeat split; [assumption|lia|constructor].
  - inversion HE as [? ? Hhd|? ? Htl]; subst; [congruence|].
    destruct (IH Htl) as (y & Hy & Hfy & Hpos & Hbefore).
    destruct (Z.ltb_spec (IndexFunc s f) 0) as [Hlt|_]; [lia|].
    exists y.
    replace (Z.to_nat (IndexFunc s f + 1)) with (S (Z.to_nat (IndexFunc s f))) by lia.
    simpl. repeat split; [assumption|assumption|lia|].
    constructor; assumption.
Qed.

Lemma index_Done s i x :
  index s i = Done x ↔ 0 <= i ∧ s !! Z.to_nat i = Some x.
Proof.
  unfold index.
  destruct (Z.leb_spec 0 i) as [Hi|Hi]; simpl.
  - destruct (Z.ltb_spec i (Z.of_nat (length s))) as [Hlt|Hge].
    + destruct (s !! Z.to_nat i) as [y|] eqn:Hy.
      * split; [intros [= ->]; auto|intros [_ [= ->]]; reflexivity].
      * split; [discriminate|intros [_ ?]; discriminate].
    + split; [discriminate|]. intros [_ Hx].
      apply lookup_lt_Some in Hx. lia.
  - split; [discriminate|]. intros [? _]. lia.
Qed.

Lemma index_negative s i :
  i < 0 → index s i = Panic (IndexOutOfRange i (Z.of_nat (length s))).
Proof.
  intros Hi. unfold index.
  destruct (Z.leb_spec 0 i); [lia|reflexivity].
Qed.

(** Indexing at the result of the search: defined exactly when some
    element satisfies the predicate. *)
Lemma index_IndexFunc s f :
  (Exists (fun x => f x = true) s →
     ∃ x, index s (IndexFunc s f) = Done x ∧ f x = true) ∧
  (Forall (fun x => f x = false) s →
     index s (IndexFunc s f) = Panic (IndexOutOfRange (-1) (Z.of_nat (length s)))).
Proof.
  split.
  - intros HE. destruct (IndexFunc_first s f HE) as (x & Hx & Hfx & Hpos & _).
    exists x. split; [|assumption]. apply index_Done. auto.
  - intros HF. apply IndexFunc_absent in HF. rewrite HF.
    apply index_negative. lia.
Qed.

Lemma IndexFunc_found s f :
  0 <= IndexFunc s f → Exists (fun x => f x = true) s.
Proof.
  induction s as [|x s IH]; simpl; [lia|].
  destruct (f x) eqn:Hx; [intros _; by left|].
  destruct (Z.ltb_spec (IndexFunc s f) 0); [lia|].
  intros _. right. apply IH. lia.
Qed.

Lemma index_IndexFunc_Done s f x :
  index s (IndexFunc s f) = Done x →
  f x = true ∧ Forall (fun y => f y = false) (take (Z.to_nat (IndexFunc s f)) s).
Proof.
  intros Hx. apply index_Done in Hx as [Hpos Hx].
  destruct (IndexFunc_first s f (IndexFunc_found s f Hpos)) as (y & Hy & Hfy & _ & Hb).
  rewrite Hx in Hy. injection Hy as ->. auto.
Qed.
End SliceLemmas.

(** ** Rounding to binary64 *)

Section Rounding.

Lemma fexp_eq e : fexp prec emax e = Z.max (e - 53) (-1074).
Proof. reflexivity. Qed.

Lemma digits2_pos_bounds (m : positive) :
  2 ^ (Z.pos (digits2_pos m) - 1) <= Z.pos m < 2 ^ Z.pos (digits2_pos m).
Proof.
  induction m as [m IH|m IH|]; simpl digits2_pos.
  - rewrite Pos2Z.inj_succ.
    replace (Z.succ (Z.pos (digits2_pos m)) - 1) with (Z.succ (Z.pos (digits2_pos m) - 1)) by lia.
    rewrite !Z.pow_succ_r by lia.
    revert IH. generalize (2 ^ (Z.pos (digits2_pos m) - 1)) (2 ^ Z.pos (digits2_pos m)). lia.
  - rewrite Pos2Z.inj_succ.
    replace (Z.succ (Z.pos (digits2_pos m)) - 1) with (Z.succ (Z.pos (digits2_pos m) - 1)) by lia.
    rewrite !Z.pow_succ_r by lia.
    revert IH. generalize (2 ^ (Z.pos (digits2_pos m) - 1)) (2 ^ Z.pos (digits2_pos m)). lia.
  - simpl. lia.
Qed.

Lemma digits2_pos_unique (m : positive) (k : Z) :
  2 ^ (k - 1) <= Z.pos m < 2 ^ k → Z.pos (digits2_pos m) = k.
Proof.
  intros [Hlo Hhi]. pose proof (digits2_pos_bounds m) as [Hlo' Hhi'].
  destruct (Z.lt_trichotomy (Z.pos (digits2_pos m)) k) as [Hlt|[Heq|Hgt]]; [|exact Heq|].
  - assert (2 ^ Z.pos (digits2_pos m) <= 2 ^ (k - 1)) by (apply Z.pow_le_mono_r; lia). lia.
  - assert (0 <= k ∨ k < 0) as [Hk|Hk] by lia.
    + assert (2 ^ k <= 2 ^ (Z.pos (digits2_pos m) - 1)) by (apply Z.pow_le_mono_r; lia). lia.
    + rewrite (Z.pow_neg_r 2 k) in Hhi by lia. lia.
Qed.

Lemma Zdigits2_pos (m : positive) : Zdigits2 (Z.pos m) = Z.pos (digits2_pos m).
Proof. reflexivity. Qed.

Lemma shr_1_m mrs : 0 <= shr_m mrs → shr_m (shr_1 mrs) = shr_m mrs / 2.
Proof.
  destruct mrs as [m r s]. simpl. intros Hm.
  destruct m as [|[p|p|]|p]; cbn [shr_1 shr_m]; [reflexivity| | |reflexivity|lia].
  - apply (Z.div_unique _ _ _ 1); lia.
  - apply (Z.div_unique _ _ _ 0); lia.
Qed.

Lemma iter_pos_shr_1_m (n : positive) mrs :
  0 <= shr_m mrs → shr_m (SpecFloat.iter_pos shr_1 n mrs) = shr_m mrs / 2 ^ Z.pos n.
Proof.
  revert mrs. induction n as [n IH|n IH|]; intros mrs Hm; simpl SpecFloat.iter_pos.
  - assert (H1 : 0 <= shr_m (shr_1 mrs)).
    { rewrite shr_1_m by done. apply Z.div_pos; lia. }
    assert (H2 : 0 <= shr_m (SpecFloat.iter_pos shr_1 n (shr_1 mrs))).
    { rewrite IH by done. apply Z.div_pos; lia. }
    rewrite IH, IH, shr_1_m by done.
    rewrite !Z.div_div by lia.
    f_equal.
    replace (Z.pos n~1) with (1 + Z.pos n + Z.pos n) by lia.
    rewrite !Z.pow_add_r by lia. lia.
  - assert (H2 : 0 <= shr_m (SpecFloat.iter_pos shr_1 n mrs)).
    { rewrite IH by done. apply Z.div_pos; lia. }
    rewrite IH, IH by done.
    rewrite !Z.div_div by lia.
    f_equal.
    replace (Z.pos n~0) with (Z.pos n + Z.pos n) by lia.
    rewrite !Z.pow_add_r by lia. lia.
  - rewrite shr_1_m by done. reflexivity.
Qed.

Lemma shr_m_of_loc m l : shr_m (shr_record_of_loc m l) = m.
Proof. destruct l as [|[]]; reflexivity. Qed.

(** The first step of rounding: the mantissa loses the bits below the
    exponent [fexp] gives to its magnitude. *)
Lemma shr_fexp_spec m e l :
  0 <= m →
  let n := Z.max 0 (Z.max (Zdigits2 m + e - 53) (-1074) - e) in
  shr_m (fst (shr_fexp prec emax m e l)) = m / 2 ^ n ∧
  snd (shr_fexp prec emax m e l) = e + n.
Proof.
  intros Hm n. unfold shr_fexp, shr. subst n.
  change (Z.max (Zdigits2 m + e - 53) (-1074)) with (fexp prec emax (Zdigits2 m + e)).
  destruct (fexp prec emax (Zdigits2 m + e) - e) as [|p|p] eqn:Hn; simpl fst; simpl snd.
  - rewrite shr_m_of_loc, Z.max_l by lia. rewrite Z.div_1_r. split; lia.
  - rewrite iter_pos_shr_1_m by (rewrite shr_m_of_loc; done).
    rewrite shr_m_of_loc, Z.max_r by lia. split; reflexivity.
  - rewrite shr_m_of_loc, Z.max_l by lia. rewrite Z.div_1_r. split; lia.
Qed.

Lemma round_nearest_even_range m l :
  m <= round_nearest_even m l <= m + 1.
Proof.
  destruct l as [|[]]; simpl; try lia.
  destruct (Z.even m); lia.
Qed.

(** [binary_round_aux] on a mantissa that is not negative, step by
    step. *)
Lemma binary_round_aux_spec sx mx ex lx :
  0 <= mx →
  let n1 := Z.max 0 (Z.max (Zdigits2 mx + ex - 53) (-1074) - ex) in
  let m1 := mx / 2 ^ n1 in
  let e1 := ex + n1 in
  ∃ m2, m1 <= m2 <= m1 + 1 ∧
    let n2 := Z.max 0 (Z.max (Zdigits2 m2 + e1 - 53) (-1074) - e1) in
    let m3 := m2 / 2 ^ n2 in
    let e3 := e1 + n2 in
    0 <= m3 ∧
    binary_round_aux prec emax sx mx ex lx =
      match m3 with
      | Z0 => S754_zero sx
      | Z.pos m => if e3 <=? emax - prec then S754_finite sx m e3 else S754_infinity sx
      | Z.neg _ => S754_nan
      end.
Proof.
  intros Hmx n1 m1 e1.
  unfold binary_round_aux.
  destruct (shr_fexp_spec mx ex lx Hmx) as [Hm1 He1].
  destruct (shr_fexp prec emax mx ex lx) as [mrs' e'] eqn:Hs1.
  simpl in Hm1, He1.
  set (m2 := round_nearest_even (shr_m mrs') (loc_of_shr_record mrs')).
  assert (Hm2 : m1 <= m2 <= m1 + 1).
  { subst m2 m1 n1. rewrite <- Hm1. apply round_nearest_even_range. }
  assert (Hm1pos : 0 <= m1) by (apply Z.div_pos; lia).
  exists m2. split; [exact Hm2|].
  assert (Hm2pos : 0 <= m2) by lia.
  destruct (shr_fexp_spec m2 e' loc_Exact Hm2pos) as [Hm3 He3].
  destruct (shr_fexp prec emax m2 e' loc_Exact) as [mrs'' e''] eqn:Hs2.
  simpl in Hm3, He3. subst e'. fold e1 in Hm3, He3.
  cbv zeta. split; [apply Z.div_pos; lia|].
  rewrite Hm3, He3. reflexivity.
Qed.

Lemma pow2_pos k : 0 <= k → 0 < 2 ^ k.
Proof. intros. apply Z.pow_pos_nonneg; lia. Qed.

(** Shifting right by [n] takes [n] digits away. *)
Lemma div_pow2_bounds m d n :
  0 <= n → n < d → 2 ^ (d - 1) <= m < 2 ^ d →
  2 ^ (d - n - 1) <= m / 2 ^ n < 2 ^ (d - n).
Proof.
  intros Hn Hd [Hlo Hhi]. pose proof (pow2_pos n Hn) as Hp.
  split.
  - apply Z.div_le_lower_bound; [exact Hp|].
    rewrite <- Z.pow_add_r by lia. replace (n + (d - n - 1)) with (d - 1) by lia. exact Hlo.
  - apply Z.div_lt_upper_bound; [exact Hp|].
    rewrite <- Z.pow_add_r by lia. replace (n + (d - n)) with d by lia. exact Hhi.
Qed.

Lemma Pos_iter_xO (m d : positive) : Z.pos (Pos.iter xO m d) = Z.pos m * 2 ^ Z.pos d.
Proof.
  induction d as [|d IH] using Pos.peano_ind.
  - simpl. lia.
  - rewrite Pos.iter_succ, Pos2Z.inj_succ, Z.pow_succ_r by lia.
    change (Z.pos (Pos.iter xO m d)~0) with (2 * Z.pos (Pos.iter xO m d)).
    rewrite IH. lia.
Qed.

Lemma shl_align_spec mx ex ex' :
  snd (shl_align mx ex ex') = Z.min ex ex' ∧
  Z.pos (fst (shl_align mx ex ex')) = Z.pos mx * 2 ^ (ex - Z.min ex ex').
Proof.
  unfold shl_align.
  destruct (ex' - ex) as [|d|d] eqn:Hd; simpl fst; simpl snd.
  - rewrite Z.min_l by lia. rewrite Z.sub_diag. split; lia.
  - rewrite Z.min_l by lia. rewrite Z.sub_diag. split; lia.
  - rewrite Z.min_r by lia. split; [reflexivity|].
    rewrite Pos_iter_xO. f_equal. f_equal. lia.
Qed.

(** Rounding in the normal range: when the mantissa has at least 53
    digits and the magnitude [d + ex] is above the subnormal numbers,
    the result keeps 53 digits, and differs from the truncated
    mantissa by at most one unit. *)
Lemma binary_round_aux_normal sx (mx : positive) ex lx :
  let d := Z.pos (digits2_pos mx) in
  -1021 <= d + ex → 53 <= d →
  ∃ (m : positive) (e : Z),
    2 ^ 52 <= Z.pos m < 2 ^ 53 ∧
    d + ex - 53 <= e <= d + ex - 52 ∧
    Z.pos mx / 2 ^ (d - 53) <= Z.pos m * 2 ^ (e - (d + ex - 53))
      <= Z.pos mx / 2 ^ (d - 53) + 1 ∧
    binary_round_aux prec emax sx (Z.pos mx) ex lx =
      if e <=? emax - prec then S754_finite sx m e else S754_infinity sx.
Proof.
  intros d HD Hd.
  destruct (binary_round_aux_spec sx (Z.pos mx) ex lx ltac:(lia)) as (m2 & Hm2 & H).
  cbv zeta in H, Hm2. rewrite Zdigits2_pos in H, Hm2. fold d in H, Hm2.
  assert (Hn1 : Z.max 0 (Z.max (d + ex - 53) (-1074) - ex) = d - 53) by lia.
  rewrite Hn1 in H, Hm2.
  pose proof (digits2_pos_bounds mx) as Hmx. fold d in Hmx.
  pose proof (div_pow2_bounds (Z.pos mx) d (d - 53) ltac:(lia) ltac:(lia) Hmx) as Hm1.
  replace (d - (d - 53) - 1) with 52 in Hm1 by lia.
  replace (d - (d - 53)) with 53 in Hm1 by lia.
  set (m1 := Z.pos mx / 2 ^ (d - 53)) in *.
  replace (ex + (d - 53)) with (d + ex - 53) in H by lia.
  destruct (Z.eq_dec m2 (2 ^ 53)) as [Heq|Hne].
  - (* the carry *)
    rewrite Heq in H. change (Zdigits2 (2 ^ 53)) with 54 in H.
    replace (Z.max 0 (Z.max (54 + (d + ex - 53) - 53) (-1074) - (d + ex - 53))) with 1 in H by lia.
    change (2 ^ 53 / 2 ^ 1) with (Z.pos 4503599627370496) in H.
    destruct H as [_ H].
    exists 4503599627370496%positive, (d + ex - 52).
    split; [split; [reflexivity|reflexivity]|].
    split; [lia|].
    split; [|replace (d + ex - 53 + 1) with (d + ex - 52) in H by lia; exact H].
    replace (d + ex - 52 - (d + ex - 53)) with 1 by lia.
    change (Z.pos 4503599627370496 * 2 ^ 1) with (2 ^ 53). lia.
  - assert (Hr : 2 ^ 52 <= m2 < 2 ^ 53) by lia.
    destruct m2 as [|m2|m2]; [lia| |lia].
    rewrite Zdigits2_pos in H.
    rewrite (digits2_pos_unique m2 53 Hr) in H.
    replace (Z.max 0 (Z.max (53 + (d + ex - 53) - 53) (-1074) - (d + ex - 53))) with 0 in H by lia.
    rewrite Z.div_1_r, Z.add_0_r in H. destruct H as [_ H].
    exists m2, (d + ex - 53).
    split; [exact Hr|]. split; [lia|].
    split; [|exact H].
    rewrite Z.sub_diag, Z.mul_1_r. lia.
Qed.

Lemma digits2_pos_shift (m m' : positive) k :
  0 <= k → Z.pos m' = Z.pos m * 2 ^ k →
  Z.pos (digits2_pos m') = Z.pos (digits2_pos m) + k.
Proof.
  intros Hk Hm'. apply digits2_pos_unique. rewrite Hm'.
  pose proof (digits2_pos_bounds m) as [Hlo Hhi].
  pose proof (pow2_pos k Hk) as Hp.
  replace (Z.pos (digits2_pos m) + k - 1) with (Z.pos (digits2_pos m) - 1 + k) by lia.
  rewrite !Z.pow_add_r by lia. split; nia.
Qed.

(** [binary_round], which first aligns the mantissa, above the
    subnormal numbers. *)
Lemma binary_round_normal sx (mx : positive) ex :
  let d := Z.pos (digits2_pos mx) in
  -1021 <= d + ex →
  ∃ (m : positive) (e : Z),
    2 ^ 52 <= Z.pos m < 2 ^ 53 ∧
    d + ex - 53 <= e <= d + ex - 52 ∧
    binary_round prec emax sx mx ex =
      if e <=? emax - prec then S754_finite sx m e else S754_infinity sx.
Proof.
  intros d HD. unfold binary_round.
  change (fexp prec emax (Z.pos (digits2_pos mx) + ex)) with (Z.max (d + ex - 53) (-1074)).
  rewrite Z.max_l by lia.
  destruct (shl_align_spec mx ex (d + ex - 53)) as [He Hm].
  destruct (shl_align mx ex (d + ex - 53)) as [mz ez]. simpl in He, Hm.
  pose proof (digits2_pos_shift mx mz (ex - Z.min ex (d + ex - 53)) ltac:(lia) Hm) as Hdz.
  fold d in Hdz.
  destruct (binary_round_aux_normal sx mz ez loc_Exact) as (m & e & Hm' & He' & _ & Hr).
  - rewrite Hdz, He. lia.
  - rewrite Hdz. lia.
  - exists m, e. split; [exact Hm'|]. split; [|exact Hr].
    rewrite Hdz, He in He'. lia.
Qed.

Lemma SFdiv_core_binary_spec (m1 m2 : positive) e1 e2 :
  let e' := Z.min (Z.max (Z.pos (digits2_pos m1) + e1 - (Z.pos (digits2_pos m2) + e2) - 53) (-1074))
                  (e1 - e2) in
  let s := e1 - e2 - e' in
  SFdiv_core_binary prec emax (Z.pos m1) e1 (Z.pos m2) e2 =
    ((Z.pos m1 * 2 ^ s) / Z.pos m2, e',
     new_location (Z.pos m2) ((Z.pos m1 * 2 ^ s) mod Z.pos m2)).
Proof.
  intros e' s. unfold SFdiv_core_binary.
  rewrite !Zdigits2_pos.
  change (fexp prec emax (Z.pos (digits2_pos m1) + e1 - (Z.pos (digits2_pos m2) + e2)))
    with (Z.max (Z.pos (digits2_pos m1) + e1 - (Z.pos (digits2_pos m2) + e2) - 53) (-1074)).
  fold e'. fold s.
  assert (Hs : 0 <= s) by (subst s e'; lia).
  assert (Hm' : match s with
                | 0 => Z.pos m1
                | Z.pos _ => Z.shiftl (Z.pos m1) s
                | Z.neg _ => 0
                end = Z.pos m1 * 2 ^ s).
  { destruct s as [|p|p]; [lia| |lia]. apply Z.shiftl_mul_pow2. lia. }
  rewrite Hm'.
  unfold Z.div, Z.modulo.
  destruct (Z.div_eucl (Z.pos m1 * 2 ^ s) (Z.pos m2)) as [q r]. reflexivity.
Qed.

Lemma binary_round_aux_not_nan sx mx ex lx :
  0 <= mx → is_nan (binary_round_aux prec emax sx mx ex lx) = false.
Proof.
  intros Hmx.
  destruct (binary_round_aux_spec sx mx ex lx Hmx) as (m2 & _ & Hpos & ->).
  cbv zeta in Hpos |- *.
  match goal with |- context [match ?m3 with _ => _ end] => destruct m3 as [|m|m] end;
    [reflexivity| |lia].
  match goal with |- context [if ?c then _ else _] => destruct c end; reflexivity.
Qed.

Lemma binary_normalize_not_nan m e s :
  is_nan (binary_normalize prec emax m e s) = false.
Proof.
  destruct m as [|m|m]; [reflexivity| |];
    unfold binary_normalize, binary_round;
    destruct (shl_align m e _) as [mz ez];
    apply binary_round_aux_not_nan; lia.
Qed.

Lemma fsub_not_nan a b :
  is_finite a = true → is_finite b = true → is_nan (fsub a b) = false.
Proof.
  destruct a as [sa|sa| |sa ma ea], b as [sb|sb| |sb mb eb]; try discriminate; intros _ _.
  - destruct sa, sb; reflexivity.
  - reflexivity.
  - reflexivity.
  - apply binary_normalize_not_nan.
Qed.

Lemma fdiv_not_nan a sb mb eb :
  is_nan a = false → is_nan (fdiv a (S754_finite sb mb eb)) = false.
Proof.
  destruct a as [sa|sa| |sa ma ea]; try discriminate; intros _; try reflexivity.
  unfold fdiv, SFdiv. rewrite SFdiv_core_binary_spec.
  apply binary_round_aux_not_nan. apply Z.div_pos; [|lia].
  apply Z.mul_nonneg_nonneg; [lia|]. apply Z.pow_nonneg. lia.
Qed.

Lemma fmul_not_nan sa ma ea b :
  is_nan b = false → is_nan (fmul (S754_finite sa ma ea) b) = false.
Proof.
  destruct b as [sb|sb| |sb mb eb]; try discriminate; intros _; try reflexivity.
  unfold fmul, SFmul. apply binary_round_aux_not_nan. lia.
Qed.
End Rounding.

(** ** The logistic term and the battery term of the score *)

Section Terms.

Lemma of_Z_1 : of_Z 1 = S754_finite false 4503599627370496 (-52).
Proof. reflexivity. Qed.

Lemma of_Z_100 : of_Z 100 = S754_finite false 7036874417766400 (-46).
Proof. reflexivity. Qed.

(** [1 + p] for [p] not below zero is at least one: a 53-digit mantissa
    at an exponent from [-52] up, or [+Inf]. *)
Lemma fadd_one_nonneg p :
  nonneg p = true →
  fadd (of_Z 1) p = S754_infinity false ∨
  ∃ (m : positive) (e : Z),
    fadd (of_Z 1) p = S754_finite false m e ∧
    2 ^ 52 <= Z.pos m < 2 ^ 53 ∧ -52 <= e <= 971.
Proof.
  destruct p as [[]|[]| |[] m e]; try discriminate; intros _.
  - right. exists 4503599627370496%positive, (-52). repeat split; try lia; reflexivity.
  - left. reflexivity.
  - rewrite of_Z_1. unfold fadd, SFadd. cbn [cond_Zopp].
    set (ez := Z.min (-52) e).
    destruct (shl_align_spec 4503599627370496 (-52) ez) as [_ Ha].
    destruct (shl_align_spec m e ez) as [_ Hb].
    rewrite <- Pos2Z.inj_add.
    set (M := (fst (shl_align 4503599627370496 (-52) ez) + fst (shl_align m e ez))%positive).
    assert (HM : 2 ^ (- ez) <= Z.pos M).
    { subst M. rewrite Pos2Z.inj_add, Ha.
      replace (Z.min (-52) ez) with ez by lia.
      change (Z.pos 4503599627370496) with (2 ^ 52).
      rewrite <- Z.pow_add_r by lia.
      replace (52 + (-52 - ez)) with (- ez) by lia. lia. }
    change (binary_normalize prec emax (Z.pos M) ez false)
      with (binary_round prec emax false M ez).
    pose proof (digits2_pos_bounds M) as [_ Hhi].
    assert (HD : 1 <= Z.pos (digits2_pos M) + ez).
    { destruct (Z.le_gt_cases (Z.pos (digits2_pos M)) (- ez)) as [Hle|]; [|lia].
      assert (2 ^ Z.pos (digits2_pos M) <= 2 ^ (- ez)) by (apply Z.pow_le_mono_r; lia).
      lia. }
    destruct (binary_round_normal false M ez ltac:(lia)) as (m' & e' & Hm' & He' & ->).
    destruct (Z.leb_spec e' (emax - prec)) as [Hle|Hgt]; [right|left; reflexivity].
    exists m', e'. split; [reflexivity|]. split; [exact Hm'|].
    change (emax - prec) with 971 in Hle. lia.
Qed.

(** [100 / q] for [q] at least one is a positive number below 100.5. *)
Lemma fdiv_100_bounds (mq : positive) eq :
  2 ^ 52 <= Z.pos mq < 2 ^ 53 → -52 <= eq <= 971 →
  ∃ (m : positive) (e : Z),
    fdiv (of_Z 100) (S754_finite false mq eq) = S754_finite false m e ∧
    e < 0 ∧ Z.pos m < 201 * 2 ^ (- e - 1).
Proof.
  intros Hmq Heq. rewrite of_Z_100. unfold fdiv, SFdiv.
  rewrite SFdiv_core_binary_spec.
  rewrite (digits2_pos_unique mq 53 Hmq).
  change (Z.pos (digits2_pos 7036874417766400)) with 53.
  replace (Z.min (Z.max (53 + -46 - (53 + eq) - 53) (-1074)) (-46 - eq)) with (-99 - eq) by lia.
  replace (-46 - eq - (-99 - eq)) with 53 by lia.
  set (Q := Z.pos 7036874417766400 * 2 ^ 53 / Z.pos mq).
  assert (HQ : 2 ^ 52 <= Q <= 100 * 2 ^ 47).
  { subst Q. split.
    - apply Z.div_le_lower_bound; [lia|].
      change (Z.pos 7036874417766400 * 2 ^ 53) with (100 * 2 ^ 47 * 2 ^ 52).
      change (2 ^ 53) with (2 * 2 ^ 52) in Hmq. nia.
    - apply Z.div_le_upper_bound; [lia|].
      change (Z.pos 7036874417766400 * 2 ^ 53) with (2 ^ 52 * (100 * 2 ^ 47)).
      nia. }
  destruct Q as [|Qp|Qp] eqn:HQp; [lia| |lia].
  pose proof (digits2_pos_bounds Qp) as [Hdlo Hdhi].
  set (d := Z.pos (digits2_pos Qp)) in *.
  assert (Hd : 53 <= d <= 54).
  { split.
    - destruct (Z.le_gt_cases d 52) as [Hle|]; [|lia].
      assert (2 ^ d <= 2 ^ 52) by (apply Z.pow_le_mono_r; lia). lia.
    - destruct (Z.le_gt_cases d 54) as [|Hgt]; [lia|].
      assert (2 ^ 54 <= 2 ^ (d - 1)) by (apply Z.pow_le_mono_r; lia).
      change (2 ^ 54) with (128 * 2 ^ 47) in *. lia. }
  change (xorb false false) with false.
  destruct (binary_round_aux_normal false Qp (-99 - eq)
              (new_location (Z.pos mq) (Z.pos 7036874417766400 * 2 ^ 53 mod Z.pos mq)))
    as (m & e & Hm & He & Hv & ->); fold d; [lia|lia|].
  fold d in He, Hv.
  destruct (Z.leb_spec e (emax - prec)) as [_|Hgt];
    [|change (emax - prec) with 971 in Hgt; lia].
  exists m, e. split; [reflexivity|]. split; [lia|].
  assert (Hk : e = d + (-99 - eq) - 53 ∨ e = d + (-99 - eq) - 52) by lia.
  assert (Hn : d = 53 ∨ d = 54) by lia.
  assert (HT : 2 ^ 46 <= 2 ^ (98 + eq)) by (apply Z.pow_le_mono_r; lia).
  set (T := 2 ^ (- e - 1)).
  destruct Hv as [_ Hv].
  destruct Hk as [Hk|Hk], Hn as [Hn|Hn]; rewrite Hk, Hn in Hv; subst T;
    rewrite Hk, Hn.
  - replace (53 + (-99 - eq) - 53 - (53 + (-99 - eq) - 53)) with 0 in Hv by lia.
    replace (- (53 + (-99 - eq) - 53) - 1) with (98 + eq) by lia.
    change (2 ^ (53 - 53)) with 1 in Hv. rewrite Z.div_1_r in Hv.
    change (2 ^ 0) with 1 in Hv. lia.
  - replace (54 + (-99 - eq) - 53 - (54 + (-99 - eq) - 53)) with 0 in Hv by lia.
    replace (- (54 + (-99 - eq) - 53) - 1) with (98 + eq - 1) by lia.
    change (2 ^ (54 - 53)) with 2 in Hv. change (2 ^ 0) with 1 in Hv.
    replace (98 + eq) with (1 + (98 + eq - 1)) in HT by lia.
    rewrite Z.pow_add_r in HT by lia. change (2 ^ 1) with 2 in HT.
    pose proof (Z.mul_div_le (Z.pos Qp) 2 ltac:(lia)). lia.
  - replace (53 + (-99 - eq) - 52 - (53 + (-99 - eq) - 53)) with 1 in Hv by lia.
    replace (- (53 + (-99 - eq) - 52) - 1) with (98 + eq - 1) by lia.
    change (2 ^ (53 - 53)) with 1 in Hv. rewrite Z.div_1_r in Hv.
    change (2 ^ 1) with 2 in Hv.
    replace (98 + eq) with (1 + (98 + eq - 1)) in HT by lia.
    rewrite Z.pow_add_r in HT by lia. change (2 ^ 1) with 2 in HT. lia.
  - replace (54 + (-99 - eq) - 52 - (54 + (-99 - eq) - 53)) with 1 in Hv by lia.
    replace (- (54 + (-99 - eq) - 52) - 1) with (98 + eq - 2) by lia.
    change (2 ^ (54 - 53)) with 2 in Hv. change (2 ^ 1) with 2 in Hv.
    replace (98 + eq) with (2 + (98 + eq - 2)) in HT by lia.
    rewrite Z.pow_add_r in HT by lia. change (2 ^ 2) with 4 in HT.
    pose proof (Z.mul_div_le (Z.pos Qp) 2 ltac:(lia)). lia.
Qed.

Lemma of_Z_0 : of_Z 0 = S754_zero false.
Proof. reflexivity. Qed.

(** [math.Round] of a positive number below [N + 0.5] is one of the
    integers [0 .. N]. *)
Lemma math_Round_below (N : Z) (m : positive) e :
  e < 0 → Z.pos m < (2 * N + 1) * 2 ^ (- e - 1) →
  ∃ n, 0 <= n <= N ∧ math_Round (S754_finite false m e) = of_Z n.
Proof.
  intros He Hm. unfold math_Round.
  destruct (Z.leb_spec 0 e) as [|_]; [lia|].
  set (n := (Z.pos m + 2 ^ (- e - 1)) / 2 ^ (- e)).
  assert (HT : 0 < 2 ^ (- e - 1)) by (apply pow2_pos; lia).
  assert (H2T : 2 ^ (- e) = 2 * 2 ^ (- e - 1)).
  { replace (- e) with (Z.succ (- e - 1)) at 1 by lia. apply Z.pow_succ_r. lia. }
  assert (Hn : 0 <= n <= N).
  { subst n. rewrite H2T. split.
    - apply Z.div_pos; lia.
    - apply Z.lt_succ_r. apply Z.div_lt_upper_bound; nia. }
  exists n. split; [exact Hn|].
  destruct (Z.eqb_spec n 0) as [->|Hne]; reflexivity.
Qed.

(** The order of [SFleb] on two positive numbers. *)
Lemma SFleb_positive (m1 m2 : positive) e1 e2 :
  SFleb (S754_finite false m1 e1) (S754_finite false m2 e2) = true →
  e1 < e2 ∨ (e1 = e2 ∧ Z.pos m1 <= Z.pos m2).
Proof.
  unfold SFleb, SFcompare.
  destruct (Z.compare_spec e1 e2) as [He|He|He]; [|intros _; lia|discriminate].
  rewrite Pos.compare_cont_spec.
  destruct (Pos.compare_spec m1 m2) as [Hm|Hm|Hm]; cbn [Pos.switch_Eq];
    [intros _; right; subst; lia|intros _; right; lia|discriminate].
Qed.

Lemma valid_binary_normal (s : bool) (m : positive) e :
  valid_binary prec emax (S754_finite s m e) = true → -1074 < e →
  2 ^ 52 <= Z.pos m < 2 ^ 53.
Proof.
  unfold valid_binary, bounded, canonical_mantissa.
  change (fexp prec emax (Z.pos (digits2_pos m) + e))
    with (Z.max (Z.pos (digits2_pos m) + e - 53) (-1074)).
  intros Hv He. apply andb_prop in Hv as [Hc _]. apply Z.eqb_eq in Hc.
  pose proof (digits2_pos_bounds m) as Hm.
  replace (Z.pos (digits2_pos m)) with 53 in Hm by lia. exact Hm.
Qed.

(** [math.Round] of a float64 between 20 and 100 is one of the integers
    [20 .. 100]. *)
Lemma math_Round_battery b :
  valid_binary prec emax b = true →
  SFleb (of_Z 20) b = true → SFleb b (of_Z 100) = true →
  ∃ n, 20 <= n <= 100 ∧ math_Round b = of_Z n.
Proof.
  change (of_Z 20) with (S754_finite false 5629499534213120 (-48)).
  rewrite of_Z_100.
  destruct b as [sb|sb| |sb m e]; [discriminate|destruct sb; discriminate|discriminate|].
  destruct sb; [discriminate|].
  intros Hv Hlo Hhi.
  apply SFleb_positive in Hlo, Hhi.
  apply valid_binary_normal in Hv; [|lia].
  change (2 ^ 52) with 4503599627370496 in Hv.
  change (2 ^ 53) with 9007199254740992 in Hv.
  change (Z.pos 5629499534213120) with 5629499534213120 in Hlo.
  unfold math_Round.
  destruct (Z.leb_spec 0 e) as [|_]; [lia|].
  assert (Hcases : e = -48 ∨ e = -47 ∨ e = -46) by lia.
  destruct Hcases as [->|[->| ->]].
  - change (2 ^ (- -48 - 1)) with 140737488355328.
    change (2 ^ (- -48)) with 281474976710656.
    set (n := (Z.pos m + 140737488355328) / 281474976710656).
    assert (Hn : 20 <= n <= 32).
    { subst n. split.
      - apply Z.div_le_lower_bound; lia.
      - apply Z.lt_succ_r, Z.div_lt_upper_bound; lia. }
    exists n. split; [lia|].
    destruct (Z.eqb_spec n 0); [lia|]. reflexivity.
  - change (2 ^ (- -47 - 1)) with 70368744177664.
    change (2 ^ (- -47)) with 140737488355328.
    set (n := (Z.pos m + 70368744177664) / 140737488355328).
    assert (Hn : 32 <= n <= 64).
    { subst n. split.
      - apply Z.div_le_lower_bound; lia.
      - apply Z.lt_succ_r, Z.div_lt_upper_bound; lia. }
    exists n. split; [lia|].
    destruct (Z.eqb_spec n 0); [lia|]. reflexivity.
  - change (2 ^ (- -46 - 1)) with 35184372088832.
    change (2 ^ (- -46)) with 70368744177664.
    set (n := (Z.pos m + 35184372088832) / 70368744177664).
    assert (Hn : 64 <= n <= 100).
    { subst n. split.
      - apply Z.div_le_lower_bound; lia.
      - apply Z.lt_succ_r, Z.div_lt_upper_bound; lia. }
    exists n. split; [lia|].
    destruct (Z.eqb_spec n 0); [lia|]. reflexivity.
Qed.

Lemma blend_of_range n nb :
  0 <= n <= 100 → 20 <= nb <= 100 →
  ∃ z, truncate (blend_of n nb) = Some z ∧ 0 <= z <= 90.
Proof.
  intros Hn Hnb.
  assert (Hall : forallb (fun n => forallb (blend_of_in 0 90 n) (seqZ 20 81)) (seqZ 0 101) = true)
    by (vm_compute; reflexivity).
  rewrite forallb_forall in Hall.
  specialize (Hall n). rewrite forallb_forall in Hall.
  assert (Hin : blend_of_in 0 90 n nb = true).
  { apply Hall.
    - apply list_elem_of_In, elem_of_seqZ. lia.
    - apply list_elem_of_In, elem_of_seqZ. lia. }
  unfold blend_of_in in Hin.
  destruct (truncate (blend_of n nb)) as [z|]; [|discriminate].
  exists z. split; [reflexivity|]. lia.
Qed.



End Terms.

(** ** The telemetry fetch *)

Section Fetch.
Context `{Externals}.

(** C9, as the code has it. [GetData] returns a non-nil error exactly
    when [http.Get] fails, [io.ReadAll] of the body fails, or
    [json.Unmarshal] returns an error, and the error is the one that the
    failing call returned, with an empty slice beside it. It returns a nil
    error exactly when the body was read and decoded, and the slice is
    then what [json.Unmarshal] decoded. What [json.Unmarshal] accepts is
    not what parses as an array: a decoder that accepts the body [null],
    as it does, makes [GetData] return the empty slice and a nil error
    for a body that does not open as an array. *)
Theorem GetData_error_iff_decoder (net : http_outcome) :
  (∀ err, GetData net = ([], Some err) ↔
     net = GetFails err ∨ net = ReadAllFails err ∨
     ∃ body, net = BodyRead body ∧ json_Unmarshal body = inr err) ∧
  (∀ data, GetData net = (data, None) ↔
     ∃ body, net = BodyRead body ∧ json_Unmarshal body = inl data) ∧
  (∀ data err, GetData net = (data, Some err) → data = []) ∧
  (json_Unmarshal "null" = inl [] → net = BodyRead "null" →
     GetData net = ([], None) ∧ json_array_opening "null" = false).
Proof.
  split; [|split; [|split]].
  - intros err. destruct net as [e|e|body]; simpl.
    + split.
      * intros [= ->]. by left.
      * intros [[= ->]|[[=]|(b & [=] & _)]]. reflexivity.
    + split.
      * intros [= ->]. right. by left.
      * intros [[=]|[[= ->]|(b & [=] & _)]]. reflexivity.
    + destruct (json_Unmarshal body) as [data|e] eqn:Hdec.
      * split; [discriminate|].
        intros [[=]|[[=]|(b & [= <-] & Hb)]]. congruence.
      * split.
        -- intros [= ->]. right. right. eauto.
        -- intros [[=]|[[=]|(b & [= <-] & Hb)]]. congruence.
  - intros data. destruct net as [e|e|body]; simpl.
    + split; [discriminate|]. intros (b & [=] & _).
    + split; [discriminate|]. intros (b & [=] & _).
    + destruct (json_Unmarshal body) as [data'|e] eqn:Hdec.
      * split.
        -- intros [= ->]. eauto.
        -- intros (b & [= <-] & Hb). congruence.
      * split; [discriminate|]. intros (b & [= <-] & Hb). congruence.
  - intros data err. destruct net as [e|e|body]; simpl.
    + by intros [= <- _].
    + by intros [= <- _].
    + destruct (json_Unmarshal body); [discriminate|]. by intros [= <- _].
  - intros Hnull ->. simpl. rewrite Hnull. split; reflexivity.
Qed.

(** C1. When the telemetry fetch fails, whatever the node, [Score]
    returns the fallback score 22 with the nil (success) status. *)
Theorem Score_fetch_failure (pl : NodeNumber) (net : http_outcome)
    (state : CycleState) (pod : Pod) (nodeName : string) :
  snd (GetData net) ≠ None →
  ∃ st, Score pl net state pod nodeName = Done (22, st) ∧ IsSuccess st = true.
Proof.
  intros Herr. exists StatusNil. split; [|reflexivity].
  unfold Score. destruct (GetData net) as [apiData [err|]]; simpl in *.
  - reflexivity.
  - congruence.
Qed.
End Fetch.

(** ** The node lookup and the location lookup *)

Section Lookup.
Context `{Externals}.

Lemma Score_unfold pl net state pod nodeName data :
  GetData net = (data, None) →
  Score pl net state pod nodeName =
    (n ← index (SnapshotNodeInfos (fh pl))
           (IndexFunc (SnapshotNodeInfos (fh pl)) (named nodeName));
     d ← GetLocationData (label (node_Labels (NodeInfo_Node n)) "location") data;
     Done (int64_of_float64 (blend d), StatusNil)).
Proof. intros Hget. unfold Score. rewrite Hget. reflexivity. Qed.


(** C2. After a successful fetch, for a node of the snapshot whose
    location label matches no record of the telemetry, the search of
    [GetLocationData] gives [-1] and [Score] panics on the access
    [data[-1]]: it returns no score at all, and so not the fallback. *)
Theorem Score_unmatched_location_panics (pl : NodeNumber) (net : http_outcome)
    (state : CycleState) (pod : Pod) (nodeName : string)
    (data : list LocationData) (n : NodeInfo) :
  GetData net = (data, None) →
  index (SnapshotNodeInfos (fh pl))
        (IndexFunc (SnapshotNodeInfos (fh pl)) (named nodeName)) = Done n →
  Forall (fun d => Location d ≠ label (node_Labels (NodeInfo_Node n)) "location") data →
  GetLocationData (label (node_Labels (NodeInfo_Node n)) "location") data
    = Panic (IndexOutOfRange (-1) (Z.of_nat (length data))) ∧
  Score pl net state pod nodeName
    = Panic (IndexOutOfRange (-1) (Z.of_nat (length data))).
Proof.
  intros Hget Hn HF.
  assert (Hloc : GetLocationData (label (node_Labels (NodeInfo_Node n)) "location") data
                 = Panic (IndexOutOfRange (-1) (Z.of_nat (length data)))).
  { unfold GetLocationData. apply index_IndexFunc.
    eapply Forall_impl; [exact HF|].
    intros d Hd. unfold located. by apply bool_decide_eq_false. }
  split; [exact Hloc|].
  rewrite (Score_unfold _ _ _ _ _ _ Hget), Hn. simpl.
  rewrite Hloc. reflexivity.
Qed.

(** C7. The [reverse] field of the plugin is not read by [Score]. *)
Theorem Score_reverse_irrelevant (h : Handle) (net : http_outcome)
    (state : CycleState) (pod : Pod) (nodeName : string) :
  Score {| fh := h; reverse := true |} net state pod nodeName =
  Score {| fh := h; reverse := false |} net state pod nodeName.
Proof. reflexivity. Qed.

(** C8. [Score] reads neither the pod nor the cycle state: with the same
    telemetry and the same node, two pods and two states, one of them
    written by [PreScore], give the same score and status. *)
Theorem Score_ignores_pod_and_state (pl : NodeNumber) (net : http_outcome)
    (state1 state2 : CycleState) (pod1 pod2 : Pod) (nodes : list NodeInfo)
    (nodeName : string) :
  Score pl net state1 pod1 nodeName = Score pl net state2 pod2 nodeName ∧
  (∀ state1' st, PreScore pl state1 pod1 nodes = Done (state1', st) →
     Score pl net state1' pod1 nodeName = Score pl net state2 pod2 nodeName).
Proof. split; [reflexivity|intros; reflexivity]. Qed.
End Lookup.

(** ** The PreScore stage *)

Section PodFeature.

Lemma digit_of_range c d : digit_of c = Some d → 0 <= d <= 9 ∧ c = digit_char d.
Proof.
  unfold digit_of, digit_char. intros Hd.
  destruct (Z.leb_spec 48 (Z.of_N (N_of_ascii c))) as [Hlo|]; [|discriminate].
  destruct (Z.leb_spec (Z.of_N (N_of_ascii c)) 57) as [Hhi|]; [|discriminate].
  simpl in Hd. injection Hd as <-. split; [lia|].
  replace (48 + (Z.of_N (N_of_ascii c) - 48)) with (Z.of_N (N_of_ascii c)) by lia.
  by rewrite N2Z.id, ascii_N_embedding.
Qed.

Lemma digit_of_digit_char d : 0 <= d <= 9 → digit_of (digit_char d) = Some d.
Proof.
  intros Hd.
  assert (Hcases : d = 0 ∨ d = 1 ∨ d = 2 ∨ d = 3 ∨ d = 4 ∨ d = 5 ∨ d = 6 ∨
                   d = 7 ∨ d = 8 ∨ d = 9) by lia.
  repeat (destruct Hcases as [->|Hcases]; [reflexivity|]). by subst.
Qed.

(** On a one-byte string [strconv.Atoi] succeeds exactly on a decimal
    digit. *)
Lemma Atoi_one_byte c : Atoi (String c EmptyString) = digit_of c.
Proof. destruct c as [[] [] [] [] [] [] [] []]; reflexivity. Qed.

Lemma last_byte_Some s : s ≠ EmptyString → ∃ c, last_byte s = Some c.
Proof.
  induction s as [|a s IH]; [congruence|]. intros _.
  destruct s as [|b s]; [by exists a|].
  destruct IH as [c Hc]; [discriminate|]. by exists c.
Qed.

Lemma substring_last s c :
  last_byte s = Some c →
  String.substring (String.length s - 1) 1 s = String c EmptyString.
Proof.
  induction s as [|a s IH]; [discriminate|].
  destruct s as [|b s]; [intros [= ->]; reflexivity|].
  intros Hc. specialize (IH Hc).
  replace (String.length (String a (String b s)) - 1)%nat
    with (S (String.length (String b s) - 1))%nat by (simpl; lia).
  exact IH.
Qed.

Lemma string_from_last s c :
  last_byte s = Some c →
  string_from s (Z.of_nat (String.length s) - 1) = Done (String c EmptyString).
Proof.
  intros Hc. unfold string_from.
  assert (Hlen : (1 <= String.length s)%nat).
  { destruct s; [discriminate|simpl; lia]. }
  destruct (Z.leb_spec 0 (Z.of_nat (String.length s) - 1)); [|lia].
  destruct (Z.leb_spec (Z.of_nat (String.length s) - 1) (Z.of_nat (String.length s))); [|lia].
  simpl. f_equal.
  replace (Z.to_nat (Z.of_nat (String.length s) - 1)) with (String.length s - 1)%nat by lia.
  replace (Z.to_nat (Z.of_nat (String.length s) - (Z.of_nat (String.length s) - 1)))
    with 1%nat by lia.
  by apply substring_last.
Qed.

(** C6, as the code has it. For a pod whose name is not empty, PreScore
    returns the nil status; when the last byte of the name is the
    decimal digit [d], it writes [d] under the key of the plugin, and
    when it is not a digit, it leaves the cycle state as it was. *)
Theorem PreScore_nonempty_name (pl : NodeNumber) (state : CycleState) (pod : Pod)
    (nodes : list NodeInfo) :
  pod_Name pod ≠ EmptyString →
  ∃ c, last_byte (pod_Name pod) = Some c ∧
    (∀ d, 0 <= d <= 9 → c = digit_char d →
       PreScore pl state pod nodes =
         Done (<[preScoreStateKey := {| podSuffixNumber := d |}]> state, StatusNil)) ∧
    ((∀ d, 0 <= d <= 9 → c ≠ digit_char d) →
       PreScore pl state pod nodes = Done (state, StatusNil)) ∧
    (∃ state', PreScore pl state pod nodes = Done (state', StatusNil)).
Proof.
  intros Hne. destruct (last_byte_Some _ Hne) as [c Hc].
  exists c. split; [exact Hc|].
  unfold PreScore. rewrite (string_from_last _ _ Hc). simpl.
  rewrite Atoi_one_byte.
  split; [|split].
  - intros d Hd ->. by rewrite digit_of_digit_char.
  - intros Hnot. destruct (digit_of c) as [d|] eqn:Hd; [|reflexivity].
    apply digit_of_range in Hd as [Hr ->]. by destruct (Hnot d Hr).
  - destruct (digit_of c); eauto.
Qed.

(** C6, as the claim has it, fails on the empty name: the slice
    expression [pod.Name[len(pod.Name)-1:]] panics. *)
Lemma PreScore_empty_name_panics :
  PreScore {| fh := {| SnapshotNodeInfos := [] |}; reverse := false |}
           ∅ {| pod_Name := EmptyString |} []
  = Panic (SliceBoundsOutOfRange (-1) 0).
Proof. reflexivity. Qed.

Lemma PreScore_nonempty_name_witness :
  ∃ c, last_byte "pod7" = Some c ∧
    PreScore {| fh := {| SnapshotNodeInfos := [] |}; reverse := false |}
             ∅ {| pod_Name := "pod7" |} []
    = Done ({[ preScoreStateKey := {| podSuffixNumber := 7 |} ]}, StatusNil).
Proof.
  destruct (PreScore_nonempty_name
              {| fh := {| SnapshotNodeInfos := [] |}; reverse := false |}
              ∅ {| pod_Name := "pod7" |} []) as (c & Hc & Hdigit & _).
  - discriminate.
  - exists c. split; [exact Hc|].
    apply (Hdigit 7); [lia|]. simpl in Hc. injection Hc as <-. reflexivity.
Defined.
End PodFeature.

(** ** The scoring function *)

Section Scoring.
Context `{Externals}.

(** [Score] on a node of the snapshot whose location has a record. *)
Lemma Score_matched pl net state pod nodeName data n d :
  GetData net = (data, None) →
  index (SnapshotNodeInfos (fh pl))
        (IndexFunc (SnapshotNodeInfos (fh pl)) (named nodeName)) = Done n →
  GetLocationData (label (node_Labels (NodeInfo_Node n)) "location") data = Done d →
  Score pl net state pod nodeName = Done (int64_of_float64 (blend d), StatusNil).
Proof.
  intros Hget Hn Hd. rewrite (Score_unfold _ _ _ _ _ _ Hget), Hn. simpl.
  rewrite Hd. reflexivity.
Qed.

Lemma int64_of_float64_truncate x z :
  truncate x = Some z → int64_min <= z <= int64_max → int64_of_float64 x = z.
Proof.
  intros Hz Hr. unfold int64_of_float64. rewrite Hz.
  destruct (Z.leb_spec int64_min z); [|lia].
  destruct (Z.leb_spec z int64_max); [|lia]. reflexivity.
Qed.




(** The logistic term rounds to one of the integers [0 .. 100], whatever
    [math.Pow] returns, as long as it is not NaN and not negative. *)
Lemma round_logistic_range p :
  nonneg p = true →
  ∃ n, 0 <= n <= 100 ∧ math_Round (fdiv (of_Z 100) (fadd (of_Z 1) p)) = of_Z n.
Proof.
  intros Hp. destruct (fadd_one_nonneg p Hp) as [->|(mq & eq & -> & Hmq & Heq)].
  - exists 0. split; [lia|reflexivity].
  - destruct (fdiv_100_bounds mq eq Hmq Heq) as (m & e & -> & He & Hm).
    apply (math_Round_below 100 m e He Hm).
Qed.

Lemma exponent_not_nan d :
  is_finite (RenewableOutput d) = true → is_number (PrimaryLoad d) = true →
  is_nan (fmul (of_Z (-5))
               (fdiv (fsub (RenewableOutput d) (PrimaryLoad d)) (PrimaryLoad d))) = false.
Proof.
  intros Hro Hpl.
  change (of_Z (-5)) with (S754_finite true 5629499534213120 (-50)).
  apply fmul_not_nan.
  destruct (PrimaryLoad d) as [| | |sp mp ep] eqn:Hp; try discriminate.
  apply fdiv_not_nan. apply fsub_not_nan; [exact Hro|reflexivity].
Qed.

(** C4, as the code has it. [Score] applies no clamp. What keeps the
    score in the band of the host is the range of the inputs: for a
    matched record whose renewable output is finite, whose load is a
    number other than zero and whose battery charge lies between 20 and
    100, the score lies between 0 and 90, provided [math.Pow] returns
    neither NaN nor a negative number on an exponent that is not NaN. *)
Theorem Score_in_band_for_charged_battery (pl : NodeNumber) (net : http_outcome)
    (state : CycleState) (pod : Pod) (nodeName : string)
    (data : list LocationData) (n : NodeInfo) (d : LocationData) :
  (∀ y, is_nan y = false → nonneg (math_Pow math_E y) = true) →
  GetData net = (data, None) →
  index (SnapshotNodeInfos (fh pl))
        (IndexFunc (SnapshotNodeInfos (fh pl)) (named nodeName)) = Done n →
  GetLocationData (label (node_Labels (NodeInfo_Node n)) "location") data = Done d →
  is_finite (RenewableOutput d) = true →
  is_number (PrimaryLoad d) = true →
  valid_binary prec emax (BatteryCharge d) = true →
  fle (of_Z 20) (BatteryCharge d) = true →
  fle (BatteryCharge d) (of_Z 100) = true →
  ∃ z, Score pl net state pod nodeName = Done (z, StatusNil) ∧
       0 <= z <= 90 ∧ in_band z.
Proof.
  intros HPow Hget Hn Hd Hro Hpl Hbv Hb20 Hb100.
  rewrite (Score_matched pl net state pod nodeName data n d Hget Hn Hd).
  destruct (round_logistic_range _ (HPow _ (exponent_not_nan d Hro Hpl)))
    as (k & Hk & Hround).
  destruct (math_Round_battery _ Hbv Hb20 Hb100) as (kb & Hkb & Hroundb).
  destruct (blend_of_range k kb Hk Hkb) as (z & Hz & Hzr).
  assert (Hblend : blend d = blend_of k kb).
  { unfold blend, blend_of. rewrite Hround, Hroundb. reflexivity. }
  exists z. rewrite Hblend, (int64_of_float64_truncate _ z Hz).
  - split; [reflexivity|]. split; [exact Hzr|].
    unfold in_band, MinNodeScore, MaxNodeScore. lia.
  - unfold int64_min, int64_max. lia.
Qed.

(** C5, as the code has it. For a matched record whose load is zero and
    whose renewable output is a number other than zero, [Score]
    substitutes no fallback: the quotient is an infinity, the logistic
    term is 100 when output and load have the same sign and 0 when they
    have not, and the score is the [int64] conversion of
    [50 + (round(batteryCharge) - 20) * 0.5], respectively of
    [0 + (round(batteryCharge) - 20) * 0.5]. [math.Pow] is taken at its
    documented values [Pow(x, -Inf) = +0] and [Pow(x, +Inf) = +Inf] for
    [|x| > 1]. *)
Theorem Score_zero_load (pl : NodeNumber) (net : http_outcome)
    (state : CycleState) (pod : Pod) (nodeName : string)
    (data : list LocationData) (n : NodeInfo) (d : LocationData)
    (sr sp : bool) (mr : positive) (er : Z) :
  math_Pow math_E (S754_infinity true) = S754_zero false →
  math_Pow math_E (S754_infinity false) = S754_infinity false →
  GetData net = (data, None) →
  index (SnapshotNodeInfos (fh pl))
        (IndexFunc (SnapshotNodeInfos (fh pl)) (named nodeName)) = Done n →
  GetLocationData (label (node_Labels (NodeInfo_Node n)) "location") data = Done d →
  PrimaryLoad d = S754_zero sp →
  RenewableOutput d = S754_finite sr mr er →
  Score pl net state pod nodeName =
    Done (int64_of_float64
            (fadd (if xorb sr sp then S754_zero false else of_Z 50)
                  (fmul (fsub (math_Round (BatteryCharge d)) (of_Z 20)) (of_Z_exp 1 (-1)))),
          StatusNil).
Proof.
  intros Hneg Hpos Hget Hn Hd Hpl Hro.
  rewrite (Score_matched pl net state pod nodeName data n d Hget Hn Hd).
  do 2 f_equal. unfold blend. rewrite Hpl, Hro.
  change (fsub (S754_finite sr mr er) (S754_zero sp)) with (S754_finite sr mr er).
  change (fdiv (S754_finite sr mr er) (S754_zero sp)) with (S754_infinity (xorb sr sp)).
  change (of_Z (-5)) with (S754_finite true 5629499534213120 (-50)).
  change (fmul (S754_finite true 5629499534213120 (-50)) (S754_infinity (xorb sr sp)))
    with (S754_infinity (xorb true (xorb sr sp))).
  destruct (xorb sr sp); cbn [xorb negb].
  - rewrite Hpos. reflexivity.
  - rewrite Hneg. reflexivity.
Qed.
End Scoring.

(** ** The model satisfies what the theorems ask of [math.Pow] *)

Section ModelFacts.

Lemma binary_normalize_nonneg m e :
  0 <= m → nonneg (binary_normalize prec emax m e false) = true.
Proof.
  intros Hm. destruct m as [|m|m]; [reflexivity| |lia].
  unfold binary_normalize, binary_round.
  destruct (shl_align m e _) as [mz ez].
  destruct (binary_round_aux_spec false (Z.pos mz) ez loc_Exact ltac:(lia))
    as (m2 & _ & Hpos & ->).
  cbv zeta in Hpos |- *.
  match type of Hpos with _ <= ?t => destruct t as [|m3|m3] end; [reflexivity| |lia].
  match goal with |- context [if ?c then _ else _] => destruct c end; reflexivity.
Qed.

Lemma taylor_nonneg fuel n term r :
  0 <= n → 0 <= term → 0 <= r → 0 <= Model.taylor fuel n term r.
Proof.
  revert n term. induction fuel as [|fuel IH]; intros n term Hn Hterm Hr; simpl; [lia|].
  assert (0 <= Model.taylor fuel (n + 1) (term * r / (Model.fixed_one * (n + 1))) r).
  { apply IH; [lia| |exact Hr].
    apply Z.div_pos; [apply Z.mul_nonneg_nonneg; lia|].
    unfold Model.fixed_one. apply Z.mul_pos_pos; [apply pow2_pos|]; lia. }
  lia.
Qed.

Lemma exp_model_nonneg y : is_nan y = false → nonneg (Model.exp_model y) = true.
Proof.
  destruct y as [s|[]| |s m e]; try discriminate; intros _; try reflexivity.
  unfold Model.exp_model.
  destruct (11 <=? Z.pos (digits2_pos m) + e); [destruct s; reflexivity|].
  apply binary_normalize_nonneg. apply taylor_nonneg; [lia|unfold Model.fixed_one; lia|].
  set (Y := Model.to_fixed s m e).
  pose proof (Z.mod_pos_bound Y Model.LN2 ltac:(unfold Model.LN2; lia)) as Hmod.
  rewrite Z.mod_eq in Hmod by (unfold Model.LN2; lia). lia.
Qed.

Lemma Model_Pow_E y :
  Model.Pow math_E y = match y with S754_zero _ => of_Z 1 | _ => Model.exp_model y end.
Proof. destruct y; reflexivity. Qed.

Lemma Model_Pow_nonneg y :
  is_nan y = false → nonneg (math_Pow (Externals := Model.externals) math_E y) = true.
Proof.
  intros Hy. change (math_Pow math_E y) with (Model.Pow math_E y).
  rewrite Model_Pow_E. destruct y; try reflexivity; try discriminate;
    apply exp_model_nonneg; reflexivity.
Qed.
End ModelFacts.

(** ** The theorems at work on the model *)

Section Examples.

Lemma Score_fetch_failure_witness :
  ∃ st, Score (H := Model.externals) sample_plugin
          (GetFails (TransportFailure "connection refused")) ∅ sample_pod "node2"
        = Done (22, st) ∧ IsSuccess st = true.
Proof.
  apply (Score_fetch_failure (H := Model.externals)). simpl. discriminate.
Defined.


Lemma Score_unmatched_location_panics_witness :
  Score (H := Model.externals) sample_plugin (BodyRead Model.payload_sample)
        ∅ sample_pod "node1"
  = Panic (IndexOutOfRange (-1) 1).
Proof.
  apply (Score_unmatched_location_panics (H := Model.externals) sample_plugin
           (BodyRead Model.payload_sample) ∅ sample_pod "node1"
           [dk_record 80 120 100] (sample_node "node1" "se")).
  - vm_compute. reflexivity.
  - vm_compute. reflexivity.
  - repeat constructor. vm_compute. discriminate.
Defined.


Lemma Score_in_band_for_charged_battery_witness :
  ∃ z, Score (H := Model.externals) sample_plugin (BodyRead Model.payload_sample)
             ∅ sample_pod "node2" = Done (z, StatusNil) ∧
       0 <= z <= 90 ∧ in_band z.
Proof.
  apply (Score_in_band_for_charged_battery (H := Model.externals) sample_plugin
           (BodyRead Model.payload_sample) ∅ sample_pod "node2"
           [dk_record 80 120 100] (sample_node "node2" "dk") (dk_record 80 120 100));
    [exact Model_Pow_nonneg|vm_compute; reflexivity ..].
Defined.

Lemma Score_zero_load_witness :
  Score (H := Model.externals) sample_plugin (BodyRead Model.payload_zero_load)
        ∅ sample_pod "node2"
  = Done (80, StatusNil).
Proof.
  apply (Score_zero_load (H := Model.externals) sample_plugin
           (BodyRead Model.payload_zero_load) ∅ sample_pod "node2"
           [dk_record 80 120 0] (sample_node "node2" "dk") (dk_record 80 120 0)
           false false 8444249301319680 (-46));
    vm_compute; reflexivity.
Defined.

(** C4, as the claim has it, fails: a battery charge of 500 with the
    renewable output equal to the load gives the score 265, above the
    band. [math.Pow] is only asked for [Pow(x, -0) = 1]. *)
Lemma Score_overcharged_out_of_band :
  Score (H := Model.externals) sample_plugin (BodyRead Model.payload_overcharged)
        ∅ sample_pod "node2"
  = Done (265, StatusNil) ∧ ¬ in_band 265.
Proof.
  split; [vm_compute; reflexivity|].
  unfold in_band, MinNodeScore, MaxNodeScore. lia.
Qed.

(** C5, as the claim has it, fails: with a load of zero and a renewable
    output of 120 the score is 80, not the fallback 22. [math.Pow] is
    only asked for [Pow(x, -Inf) = +0]. *)
Lemma Score_zero_load_not_fallback :
  Score (H := Model.externals) sample_plugin (BodyRead Model.payload_zero_load)
        ∅ sample_pod "node2"
  = Done (80, StatusNil) ∧
  Score (H := Model.externals) sample_plugin (GetFails (TransportFailure "down"))
        ∅ sample_pod "node2"
  = Done (22, StatusNil).
Proof. split; vm_compute; reflexivity. Qed.
End Examples.

(** ** More on the location lookup *)

Section LocationLookup.
Implicit Types (data : list LocationData) (d : LocationData) (loc : string).

Lemma located_true loc d : located loc d = true ↔ Location d = loc.
Proof. unfold located. apply bool_decide_eq_true. Qed.

Lemma located_false loc d : located loc d = false ↔ Location d ≠ loc.
Proof. unfold located. apply bool_decide_eq_false. Qed.

Lemma IndexFunc_app_first {A} (pre post : list A) (x : A) (f : A → bool) :
  Forall (fun y => f y = false) pre → f x = true →
  IndexFunc (pre ++ x :: post) f = Z.of_nat (length pre).
Proof.
  intros Hpre Hx. induction Hpre as [|y pre Hy _ IH]; simpl.
  - rewrite Hx. reflexivity.
  - rewrite Hy, IH. destruct (Z.ltb_spec (Z.of_nat (length pre)) 0); lia.
Qed.

Lemma GetLocationData_app loc pre post d :
  Location d = loc → Forall (fun d' => Location d' ≠ loc) pre →
  GetLocationData loc (pre ++ d :: post) = Done d.
Proof.
  intros Hloc Hpre. unfold GetLocationData.
  rewrite IndexFunc_app_first.
  - apply index_Done. split; [lia|].
    rewrite Nat2Z.id. by rewrite list_lookup_middle.
  - eapply Forall_impl; [exact Hpre|]. intros d'. apply located_false.
  - by apply located_true.
Qed.

Lemma index_IndexFunc_alternative {A} (s : list A) (f : A → bool) :
  (∃ x, index s (IndexFunc s f) = Done x ∧ f x = true) ∨
  (index s (IndexFunc s f) = Panic (IndexOutOfRange (-1) (Z.of_nat (length s))) ∧
   Forall (fun x => f x = false) s).
Proof.
  destruct (decide (Exists (fun x => f x = true) s)) as [HE|HN].
  - left. apply index_IndexFunc, HE.
  - right. apply not_Exists_Forall in HN; [|intros x; apply _].
    assert (HF : Forall (fun x => f x = false) s).
    { eapply Forall_impl; [exact HN|]. intros x Hx. simpl in Hx. by destruct (f x). }
    split; [apply index_IndexFunc, HF|exact HF].
Qed.

Lemma GetLocationData_Done_inv loc data d :
  GetLocationData loc data = Done d →
  ∃ pre post, data = pre ++ d :: post ∧ Location d = loc ∧
              Forall (fun d' => Location d' ≠ loc) pre.
Proof.
  unfold GetLocationData. intros Hd.
  pose proof (index_IndexFunc_Done _ _ _ Hd) as [Hloc Hbefore].
  apply index_Done in Hd as [Hpos Hd].
  exists (take (Z.to_nat (IndexFunc data (located loc))) data),
         (drop (S (Z.to_nat (IndexFunc data (located loc)))) data).
  split; [|split].
  - rewrite <- (take_drop_middle _ _ _ Hd) at 1. reflexivity.
  - by apply located_true.
  - eapply Forall_impl; [exact Hbefore|]. intros d'. apply located_false.
Qed.

(** [GetLocationData] returns a record exactly when it is the first record
    of the list with that location: later records with the same location
    are never returned. *)
Theorem GetLocationData_first_match loc data d :
  GetLocationData loc data = Done d ↔
  ∃ pre post, data = pre ++ d :: post ∧ Location d = loc ∧
              Forall (fun d' => Location d' ≠ loc) pre.
Proof.
  split; [apply GetLocationData_Done_inv|].
  intros (pre & post & -> & Hloc & Hpre). by apply GetLocationData_app.
Qed.

(** [GetLocationData] panics exactly when no record has the location, in
    particular on the empty list, and then always with the index [-1]. *)
Theorem GetLocationData_panics_iff loc data :
  (panics (GetLocationData loc data) ↔ Forall (fun d => Location d ≠ loc) data) ∧
  (∀ p, GetLocationData loc data = Panic p →
     p = IndexOutOfRange (-1) (Z.of_nat (length data))).
Proof.
  unfold GetLocationData.
  destruct (decide (Exists (fun d => located loc d = true) data)) as [HE|HN].
  - destruct (proj1 (index_IndexFunc data (located loc)) HE) as (d & Hd & Hloc).
    rewrite Hd. split; [|discriminate]. split; [intros []|].
    intros HF. apply located_true in Hloc.
    apply Exists_exists in HE as (d' & Hin & Hd').
    rewrite Forall_forall in HF. apply located_true in Hd'.
    destruct (HF d' Hin Hd').
  - apply not_Exists_Forall in HN; [|intros d; apply _].
    assert (HF : Forall (fun d => located loc d = false) data).
    { eapply Forall_impl; [exact HN|]. intros d Hd. simpl in Hd.
      by destruct (located loc d). }
    rewrite (proj2 (index_IndexFunc data (located loc)) HF).
    split; [|intros p [= <-]; reflexivity].
    split; [intros _|intros _; exact I].
    eapply Forall_impl; [exact HF|]. intros d. apply located_false.
Qed.

(** [GetLocationBatteryCharge] returns the battery charge of the first
    record of the list with that location, and panics, with the index
    [-1], exactly when no record has the location. *)
Theorem GetLocationBatteryCharge_first_match loc data :
  (∀ c, GetLocationBatteryCharge loc data = Done c ↔
     ∃ pre d post, data = pre ++ d :: post ∧ Location d = loc ∧
                   Forall (fun d' => Location d' ≠ loc) pre ∧ c = BatteryCharge d) ∧
  (∀ p, GetLocationBatteryCharge loc data = Panic p ↔
     Forall (fun d => Location d ≠ loc) data ∧
     p = IndexOutOfRange (-1) (Z.of_nat (length data))).
Proof.
  assert (Heq : GetLocationBatteryCharge loc data =
                match GetLocationData loc data with
                | Done d => Done (BatteryCharge d)
                | Panic p => Panic p
                end).
  { unfold GetLocationBatteryCharge, GetLocationData.
    destruct (index data (IndexFunc data (located loc))); reflexivity. }
  rewrite Heq. clear Heq.
  destruct (index_IndexFunc_alternative data (located loc)) as [(d & Hd & Hloc)|[Hd HF]];
    fold (GetLocationData loc data) in Hd; rewrite Hd.
  - apply located_true in Hloc. split.
    + intros c. split.
      * intros [= <-]. destruct (GetLocationData_Done_inv _ _ _ Hd) as (pre & post & -> & _ & Hpre).
        exists pre, d, post. repeat split; assumption.
      * intros (pre & d' & post & -> & Hloc' & Hpre & ->).
        rewrite (GetLocationData_app _ pre post d' Hloc' Hpre) in Hd. by injection Hd as ->.
    + intros p. split; [discriminate|]. intros [HF _].
      destruct (GetLocationData_Done_inv _ _ _ Hd) as (pre & post & -> & _ & _).
      apply Forall_app in HF as [_ HF]. inversion HF; subst. contradiction.
  - split.
    + intros c. split; [discriminate|].
      intros (pre & d & post & -> & Hloc & _ & _).
      apply Forall_app in HF as [_ HF]. inversion HF as [|? ? Hd' _]; subst.
      apply located_false in Hd'. contradiction.
    + intros p. split.
      * intros [= <-]. split; [|reflexivity].
        eapply Forall_impl; [exact HF|]. intros d. apply located_false.
      * intros [_ ->]. reflexivity.
Qed.
End LocationLookup.

(** ** More on [Score] *)

Section ScoreOutcomes.
Context `{Externals}.

Lemma named_true nodeName n : named nodeName n = true ↔ node_Name (NodeInfo_Node n) = nodeName.
Proof. unfold named. apply bool_decide_eq_true. Qed.

Lemma named_false nodeName n : named nodeName n = false ↔ node_Name (NodeInfo_Node n) ≠ nodeName.
Proof. unfold named. apply bool_decide_eq_false. Qed.

(** Every outcome of [Score]. A returned status is always nil, and the
    returned score is the fallback 22 (the fetch failed) or the converted
    blend of the first record matching the label of the first node of
    that name. A panic is always an index [-1] out of range: of the
    snapshot when no node has the name, of the telemetry when no record
    has the location. *)
Theorem Score_outcomes (pl : NodeNumber) (net : http_outcome)
    (state : CycleState) (pod : Pod) (nodeName : string) :
  let nodeList := SnapshotNodeInfos (fh pl) in
  let data := fst (GetData net) in
  match Score pl net state pod nodeName with
  | Done (z, st) =>
      st = StatusNil ∧
      ((snd (GetData net) ≠ None ∧ z = 22) ∨
       (snd (GetData net) = None ∧
        ∃ n d, index nodeList (IndexFunc nodeList (named nodeName)) = Done n ∧
               GetLocationData (label (node_Labels (NodeInfo_Node n)) "location") data = Done d ∧
               z = int64_of_float64 (blend d)))
  | Panic p =>
      snd (GetData net) = None ∧
      ((Forall (fun n => node_Name (NodeInfo_Node n) ≠ nodeName) nodeList ∧
        p = IndexOutOfRange (-1) (Z.of_nat (length nodeList))) ∨
       (∃ n, index nodeList (IndexFunc nodeList (named nodeName)) = Done n ∧
             Forall (fun d => Location d ≠ label (node_Labels (NodeInfo_Node n)) "location") data ∧
             p = IndexOutOfRange (-1) (Z.of_nat (length data))))
  end.
Proof.
  intros nodeList data. subst data.
  destruct (GetData net) as [data [err|]] eqn:Hget.
  - unfold Score. rewrite Hget. simpl. split; [reflexivity|]. left. split; [discriminate|reflexivity].
  - rewrite (Score_unfold _ _ _ _ _ _ Hget). fold nodeList. simpl fst; simpl snd.
    destruct (index_IndexFunc_alternative nodeList (named nodeName)) as [(n & Hn & _)|[Hn HF]];
      rewrite Hn; simpl.
    + unfold GetLocationData at 1.
      destruct (index_IndexFunc_alternative data
                  (located (label (node_Labels (NodeInfo_Node n)) "location")))
        as [(d & Hd & _)|[Hd HFd]]; rewrite Hd; simpl.
      * split; [reflexivity|]. right. split; [reflexivity|].
        exists n, d. repeat split. exact Hd.
      * split; [reflexivity|]. right. exists n. repeat split.
        eapply Forall_impl; [exact HFd|]. intros d. apply located_false.
    + split; [reflexivity|]. left. split; [|reflexivity].
      eapply Forall_impl; [exact HF|]. intros n. apply named_false.
Qed.

(** A node without a location label is looked up under the empty
    location: it gets the score of the first record whose location is the
    empty string, and [Score] panics when there is no such record. *)
Theorem Score_missing_label (pl : NodeNumber) (net : http_outcome)
    (state : CycleState) (pod : Pod) (nodeName : string)
    (data : list LocationData) (n : NodeInfo) :
  GetData net = (data, None) →
  index (SnapshotNodeInfos (fh pl))
        (IndexFunc (SnapshotNodeInfos (fh pl)) (named nodeName)) = Done n →
  node_Labels (NodeInfo_Node n) !! "location" = None →
  Score pl net state pod nodeName =
    match GetLocationData EmptyString data with
    | Done d => Done (int64_of_float64 (blend d), StatusNil)
    | Panic p => Panic p
    end.
Proof.
  intros Hget Hn Hlabel. rewrite (Score_unfold _ _ _ _ _ _ Hget), Hn. simpl.
  unfold label. rewrite Hlabel. simpl.
  destruct (GetLocationData EmptyString data); reflexivity.
Qed.
End ScoreOutcomes.

(** ** What [Score] depends on *)

Section ScoreDependence.
Context `{Externals}.

Lemma IndexFunc_Forall2 {A B} (R : A → B → Prop) (s : list A) (s' : list B)
    (f : A → bool) (f' : B → bool) :
  Forall2 R s s' → (∀ x y, R x y → f x = f' y) → IndexFunc s f = IndexFunc s' f'.
Proof.
  intros HR Hf. induction HR as [|x y s s' Hxy _ IH]; [reflexivity|].
  simpl. rewrite (Hf x y Hxy), IH. reflexivity.
Qed.

Lemma index_Forall2 {A B} (R : A → B → Prop) (s : list A) (s' : list B) (i : Z) :
  Forall2 R s s' →
  match index s i, index s' i with
  | Done x, Done y => R x y
  | Panic p, Panic p' => p = p'
  | _, _ => False
  end.
Proof.
  intros HR. pose proof (Forall2_length _ _ _ HR) as Hlen.
  unfold index. rewrite <- Hlen.
  destruct ((0 <=? i) && (i <? Z.of_nat (length s))); [|reflexivity].
  destruct (s !! Z.to_nat i) as [x|] eqn:Hx.
  - destruct (Forall2_lookup_l _ _ _ _ _ HR Hx) as (y & -> & Hxy). exact Hxy.
  - destruct (s' !! Z.to_nat i) as [y|] eqn:Hy; [|reflexivity].
    destruct (Forall2_lookup_r _ _ _ _ _ HR Hy) as (x & Hx' & _). congruence.
Qed.

Lemma blend_same_reading d d' : same_reading d d' → blend d = blend d'.
Proof. intros (_ & Hb & Hr & Hp). unfold blend. rewrite Hb, Hr, Hp. reflexivity. Qed.

(** [Score] reads of the snapshot only the names and the location labels
    of the nodes, and of the telemetry only the location, the battery
    charge, the renewable output and the load of the records: two runs
    that agree on these return the same outcome, whatever the other
    labels, the times, the unmet loads, the pods and the cycle states. *)
Theorem Score_depends_only_on (pl pl' : NodeNumber) (net net' : http_outcome)
    (state state' : CycleState) (pod pod' : Pod) (nodeName : string)
    (data data' : list LocationData) :
  Forall2 same_view (SnapshotNodeInfos (fh pl)) (SnapshotNodeInfos (fh pl')) →
  GetData net = (data, None) → GetData net' = (data', None) →
  Forall2 same_reading data data' →
  Score pl net state pod nodeName = Score pl' net' state' pod' nodeName.
Proof.
  intros Hnodes Hget Hget' Hdata.
  rewrite (Score_unfold _ _ _ _ _ _ Hget), (Score_unfold _ _ _ _ _ _ Hget').
  rewrite (IndexFunc_Forall2 same_view _ _ (named nodeName) (named nodeName) Hnodes).
  2:{ intros n n' [Hname _]. unfold named. by rewrite Hname. }
  pose proof (index_Forall2 same_view _ _
                (IndexFunc (SnapshotNodeInfos (fh pl')) (named nodeName)) Hnodes) as Hn.
  destruct (index (SnapshotNodeInfos (fh pl)) _) as [n|p],
           (index (SnapshotNodeInfos (fh pl')) _) as [n'|p'];
    simpl; [|destruct Hn|destruct Hn|congruence].
  destruct Hn as [_ Hlabel]. unfold label. rewrite Hlabel.
  set (loc := default EmptyString (node_Labels (NodeInfo_Node n') !! "location")).
  unfold GetLocationData.
  rewrite (IndexFunc_Forall2 same_reading _ _ (located loc) (located loc) Hdata).
  2:{ intros d d' [Hloc _]. unfold located. by rewrite Hloc. }
  pose proof (index_Forall2 same_reading _ _ (IndexFunc data' (located loc)) Hdata) as Hd.
  destruct (index data _) as [d|p], (index data' _) as [d'|p'];
    simpl; [|destruct Hd|destruct Hd|congruence].
  rewrite (blend_same_reading d d'); [reflexivity|assumption].
Qed.

(** The records after the first match, and the records of other
    locations before it, do not change the score: [Score] on the whole
    telemetry is [Score] on the matched record alone. *)
Theorem Score_other_records (pl : NodeNumber) (net net1 : http_outcome)
    (state : CycleState) (pod : Pod) (nodeName : string)
    (pre post : list LocationData) (d : LocationData) (n : NodeInfo) :
  GetData net = (pre ++ d :: post, None) → GetData net1 = ([d], None) →
  index (SnapshotNodeInfos (fh pl))
        (IndexFunc (SnapshotNodeInfos (fh pl)) (named nodeName)) = Done n →
  Location d = label (node_Labels (NodeInfo_Node n)) "location" →
  Forall (fun d' => Location d' ≠ label (node_Labels (NodeInfo_Node n)) "location") pre →
  Score pl net state pod nodeName = Score pl net1 state pod nodeName ∧
  Score pl net state pod nodeName = Done (int64_of_float64 (blend d), StatusNil).
Proof.
  intros Hget Hget1 Hn Hloc Hpre.
  assert (Hd : GetLocationData (label (node_Labels (NodeInfo_Node n)) "location")
                 (pre ++ d :: post) = Done d).
  { by apply GetLocationData_app. }
  assert (Hd1 : GetLocationData (label (node_Labels (NodeInfo_Node n)) "location") [d] = Done d).
  { apply (GetLocationData_app _ [] []); [exact Hloc|constructor]. }
  rewrite (Score_matched _ _ _ _ _ _ _ _ Hget Hn Hd).
  rewrite (Score_matched _ _ _ _ _ _ _ _ Hget1 Hn Hd1). split; reflexivity.
Qed.
End ScoreDependence.

(** ** More on PreScore *)

Section PreScoreState.
Implicit Types (state : CycleState).

Lemma preScoreStateKey_eq : preScoreStateKey = "PreScoreNodeNumber".
Proof. reflexivity. Qed.

Lemma last_byte_snoc s c : last_byte (s +:+ String c EmptyString) = Some c.
Proof.
  induction s as [|a s IH]; [reflexivity|].
  simpl. rewrite IH. destruct s; reflexivity.
Qed.

(** Either outcome of PreScore on a name of last byte [c]. *)
Lemma PreScore_last_byte pl state pod nodes c :
  last_byte (pod_Name pod) = Some c →
  PreScore pl state pod nodes =
    Done (match digit_of c with
          | Some d => <[preScoreStateKey := {| podSuffixNumber := d |}]> state
          | None => state
          end, StatusNil).
Proof.
  intros Hc. unfold PreScore. rewrite (string_from_last _ _ Hc). simpl.
  rewrite Atoi_one_byte. destruct (digit_of c); reflexivity.
Qed.

Lemma PreScore_Done_inv pl state pod nodes state' st :
  PreScore pl state pod nodes = Done (state', st) →
  ∃ c, last_byte (pod_Name pod) = Some c.
Proof.
  intros HP. destruct (pod_Name pod) as [|a s] eqn:Hname.
  - unfold PreScore in HP. rewrite Hname in HP. discriminate.
  - apply last_byte_Some. discriminate.
Qed.

(** PreScore writes nothing but the entry of the plugin, under the key
    ["PreScoreNodeNumber"]: every other entry of the cycle state is as it
    was, and the entry of the plugin is as it was or holds a number from 0
    to 9. The status is always nil. *)
Theorem PreScore_frame (pl : NodeNumber) (state state' : CycleState) (pod : Pod)
    (nodes : list NodeInfo) (st : Status) :
  PreScore pl state pod nodes = Done (state', st) →
  st = StatusNil ∧
  (∀ key, key ≠ "PreScoreNodeNumber" → state' !! key = state !! key) ∧
  (state' = state ∨
   ∃ d, 0 <= d <= 9 ∧ state' !! "PreScoreNodeNumber" = Some {| podSuffixNumber := d |}).
Proof.
  intros HP. destruct (PreScore_Done_inv _ _ _ _ _ _ HP) as [c Hc].
  rewrite (PreScore_last_byte _ _ _ _ _ Hc) in HP. injection HP as <- <-.
  split; [reflexivity|]. rewrite <- preScoreStateKey_eq.
  destruct (digit_of c) as [d|] eqn:Hd.
  - split.
    + intros key Hkey. by rewrite lookup_insert_ne.
    + right. exists d. split; [by apply digit_of_range in Hd as [? _]|].
      apply lookup_insert_eq.
  - split; [reflexivity|]. by left.
Qed.

(** PreScore looks at the last byte of the name only: two pods whose
    names end in the same byte leave the same cycle state, whatever the
    rest of the names, the plugins and the node lists. In particular a
    name ending in several digits stores its last digit alone. *)
Theorem PreScore_last_byte_only (pl pl' : NodeNumber) (state : CycleState)
    (nodes nodes' : list NodeInfo) (prefix prefix' : string) (c : ascii) :
  PreScore pl state {| pod_Name := prefix +:+ String c EmptyString |} nodes =
  PreScore pl' state {| pod_Name := prefix' +:+ String c EmptyString |} nodes'.
Proof.
  rewrite (PreScore_last_byte pl state _ nodes c) by apply last_byte_snoc.
  rewrite (PreScore_last_byte pl' state _ nodes' c) by apply last_byte_snoc.
  reflexivity.
Qed.

(** Running PreScore again on the state it produced changes nothing: the
    entry is overwritten with the same number. *)
Theorem PreScore_idempotent (pl : NodeNumber) (state state' : CycleState) (pod : Pod)
    (nodes : list NodeInfo) (st : Status) :
  PreScore pl state pod nodes = Done (state', st) →
  PreScore pl state' pod nodes = Done (state', st).
Proof.
  intros HP. destruct (PreScore_Done_inv _ _ _ _ _ _ HP) as [c Hc].
  rewrite (PreScore_last_byte pl state pod nodes c Hc) in HP.
  rewrite (PreScore_last_byte pl state' pod nodes c Hc). injection HP as <- <-.
  destruct (digit_of c); [|reflexivity]. by rewrite insert_insert_eq.
Qed.

(** A second pod of the same cycle state replaces the number of the
    first when its name ends in a digit, and keeps it when not: the state
    never holds more than the one entry of the plugin. *)
Theorem PreScore_overwrites (pl : NodeNumber) (state state1 state2 : CycleState)
    (pod1 pod2 : Pod) (nodes : list NodeInfo) (st1 st2 : Status) :
  PreScore pl state pod1 nodes = Done (state1, st1) →
  PreScore pl state1 pod2 nodes = Done (state2, st2) →
  dom state2 ⊆ dom state ∪ {[ "PreScoreNodeNumber" ]} ∧
  (state2 = state1 ∨ PreScore pl state pod2 nodes = Done (state2, st2)).
Proof.
  intros HP1 HP2.
  destruct (PreScore_Done_inv _ _ _ _ _ _ HP1) as [c1 Hc1].
  destruct (PreScore_Done_inv _ _ _ _ _ _ HP2) as [c2 Hc2].
  rewrite (PreScore_last_byte pl state pod1 nodes c1 Hc1) in HP1. injection HP1 as <- <-.
  rewrite (PreScore_last_byte pl _ pod2 nodes c2 Hc2) in HP2.
  rewrite (PreScore_last_byte pl state pod2 nodes c2 Hc2). injection HP2 as <- <-.
  rewrite <- preScoreStateKey_eq.
  destruct (digit_of c1) as [d1|], (digit_of c2) as [d2|].
  - split; [rewrite !dom_insert; set_solver|]. right. by rewrite insert_insert_eq.
  - split; [rewrite dom_insert; set_solver|]. by left.
  - split; [rewrite dom_insert; set_solver|]. by right.
  - split; [set_solver|]. by left.
Qed.
End PreScoreState.

(** ** The construction of the plugin and the scores *)

Section Construction.
Context `{Externals} `{ArgsDecoder}.

(** [New] returns a plugin or an error, never both and never neither; the
    plugin is on the given handle; without arguments there is no error
    and [reverse] is false; with arguments, the error is exactly the
    failure of the decoding, and [reverse] is what was decoded. *)
Theorem New_result (arg : option runtime_Object) (h : Handle) :
  match New arg h with
  | (Some pl, None) =>
      fh pl = h ∧
      match arg with
      | None => reverse pl = false
      | Some a => ∃ args, DecodeInto a {| Reverse := false |} = inl args ∧
                          reverse pl = Reverse args
      end
  | (None, Some msg) =>
      ∃ a err, arg = Some a ∧ DecodeInto a {| Reverse := false |} = inr err ∧
               msg = "decode arg into NodeNumberArgs: " +:+ err
  | _ => False
  end.
Proof.
  unfold New. destruct arg as [a|]; [|split; reflexivity].
  destruct (DecodeInto a {| Reverse := false |}) as [args|err] eqn:Hdec.
  - split; [reflexivity|]. exists args. split; reflexivity.
  - exists a, err. repeat split. exact Hdec.
Qed.

(** The arguments of the profile have no effect on the scores: two
    plugins that [New] builds on the same handle, from whatever
    arguments, return the same outcome of [Score] on every input. *)
Theorem New_args_do_not_change_Score (arg arg' : option runtime_Object) (h : Handle)
    (pl pl' : NodeNumber) (err err' : option string)
    (net : http_outcome) (state : CycleState) (pod : Pod) (nodeName : string) :
  New arg h = (Some pl, err) → New arg' h = (Some pl', err') →
  Score pl net state pod nodeName = Score pl' net state pod nodeName.
Proof.
  intros HN HN'.
  assert (Hfh : ∀ a p e, New a h = (Some p, e) → fh p = h).
  { intros a p e Hp. unfold New in Hp. destruct a as [a|].
    - destruct (DecodeInto a _); [|discriminate]. by injection Hp as <- _.
    - by injection Hp as <- _. }
  pose proof (Hfh _ _ _ HN) as Hpl. pose proof (Hfh _ _ _ HN') as Hpl'.
  unfold Score. rewrite Hpl, Hpl'. reflexivity.
Qed.
End Construction.

(** ** More on the scoring function *)

Section ScoringRange.
Context `{Externals}.

Lemma valid_binary_bounds (s : bool) (m : positive) e :
  valid_binary prec emax (S754_finite s m e) = true →
  Z.pos m < 2 ^ 53 ∧ -1074 <= e.
Proof.
  unfold valid_binary, bounded, canonical_mantissa.
  change (fexp prec emax (Z.pos (digits2_pos m) + e))
    with (Z.max (Z.pos (digits2_pos m) + e - 53) (-1074)).
  intros Hv. apply andb_prop in Hv as [Hc _]. apply Z.eqb_eq in Hc.
  pose proof (digits2_pos_bounds m) as [_ Hm].
  split; [|lia].
  assert (2 ^ Z.pos (digits2_pos m) <= 2 ^ 53) by (apply Z.pow_le_mono_r; lia). lia.
Qed.

(** [math.Round] of a float64 from 0 to 100, less 20. *)
Lemma math_Round_percentage b :
  valid_binary prec emax b = true →
  fle (of_Z 0) b = true → fle b (of_Z 100) = true →
  0 <= round_int b <= 100 ∧
  fsub (math_Round b) (of_Z 20) = fsub (of_Z (round_int b)) (of_Z 20).
Proof.
  unfold fle. rewrite of_Z_0, of_Z_100.
  destruct b as [sb|sb| |sb m e]; [|destruct sb; discriminate|discriminate|].
  - intros _ _ _. split; [simpl; lia|]. destruct sb; reflexivity.
  - destruct sb; [discriminate|]. intros Hv _ Hhi.
    apply SFleb_positive in Hhi. apply valid_binary_bounds in Hv as [Hm He].
    assert (He0 : e < 0) by lia.
    assert (Hbound : Z.pos m < 201 * 2 ^ (- e - 1)).
    { destruct Hhi as [Hlt|[-> Hle]].
      + assert (2 ^ 46 <= 2 ^ (- e - 1)) by (apply Z.pow_le_mono_r; lia).
        change (2 ^ 53) with (128 * 2 ^ 46) in Hm. lia.
      + change (2 ^ (- -46 - 1)) with 35184372088832.
        change (Z.pos 7036874417766400) with 7036874417766400 in Hle. lia. }
    unfold math_Round, round_int.
    destruct (Z.leb_spec 0 e) as [|_]; [lia|].
    set (k := (Z.pos m + 2 ^ (- e - 1)) / 2 ^ (- e)).
    assert (HT : 0 < 2 ^ (- e - 1)) by (apply pow2_pos; lia).
    assert (H2T : 2 ^ (- e) = 2 * 2 ^ (- e - 1)).
    { replace (- e) with (Z.succ (- e - 1)) at 1 by lia. apply Z.pow_succ_r. lia. }
    assert (Hk : 0 <= k <= 100).
    { subst k. rewrite H2T. split.
      - apply Z.div_pos; lia.
      - apply Z.lt_succ_r. apply Z.div_lt_upper_bound; nia. }
    split; [exact Hk|].
    destruct (Z.eqb_spec k 0) as [->|Hne]; reflexivity.
Qed.

Lemma SFleb_positive_intro (m1 m2 : positive) e1 e2 :
  e1 < e2 ∨ (e1 = e2 ∧ Z.pos m1 <= Z.pos m2) →
  SFleb (S754_finite false m1 e1) (S754_finite false m2 e2) = true.
Proof.
  intros Hle. unfold SFleb, SFcompare.
  destruct (Z.compare_spec e1 e2); [|reflexivity|lia].
  rewrite Pos.compare_cont_spec.
  destruct (Pos.compare_spec m1 m2); cbn [Pos.switch_Eq]; [reflexivity|reflexivity|lia].
Qed.

(** The order between 0 and 100 is transitive. *)
Lemma fle_between b b' :
  fle (of_Z 0) b = true → fle b b' = true → fle b' (of_Z 100) = true →
  fle (of_Z 0) b' = true ∧ fle b (of_Z 100) = true.
Proof.
  unfold fle. rewrite of_Z_0, of_Z_100.
  destruct b as [sb|[]| |[] m e]; try discriminate;
    destruct b' as [sb'|[]| |[] m' e']; try discriminate; try (split; reflexivity).
  intros _ H1 H2. split; [reflexivity|].
  apply SFleb_positive in H1, H2. apply SFleb_positive_intro. lia.
Qed.

(** [round_int] grows with its argument, on the float64 from 0 to 100. *)
Lemma round_int_mono b b' :
  valid_binary prec emax b = true → valid_binary prec emax b' = true →
  fle (of_Z 0) b = true → fle b b' = true → fle b' (of_Z 100) = true →
  round_int b <= round_int b'.
Proof.
  intros Hv Hv' H0 Hle H100.
  destruct (fle_between b b' H0 Hle H100) as [H0' _].
  destruct (math_Round_percentage b' Hv' H0' H100) as [[Hpos' _] _].
  revert Hv Hv' H0 Hle H100 Hpos'. unfold fle. rewrite of_Z_0, of_Z_100.
  destruct b as [sb|[]| |[] m e]; try discriminate; try (intros; assumption).
  destruct b' as [sb'|[]| |[] m' e']; try discriminate.
  intros Hv Hv' _ Hle H100 _.
  apply SFleb_positive in Hle, H100.
  pose proof (valid_binary_bounds _ _ _ Hv) as [Hm He].
  unfold round_int.
  destruct (Z.leb_spec 0 e) as [|_]; [lia|].
  destruct (Z.leb_spec 0 e') as [|_]; [lia|].
  destruct Hle as [Hlt|[-> Hmm]].
  - apply valid_binary_normal in Hv'; [|lia].
    set (c := 2 ^ (e' - e)).
    assert (Hc : 2 <= c).
    { subst c. change 2 with (2 ^ 1) at 1. apply Z.pow_le_mono_r; lia. }
    set (T' := 2 ^ (- e' - 1)).
    assert (HT' : 0 < T') by (apply pow2_pos; lia).
    assert (H2T' : 2 ^ (- e') = 2 * T').
    { subst T'. replace (- e') with (Z.succ (- e' - 1)) at 1 by lia. apply Z.pow_succ_r. lia. }
    assert (HT : 2 ^ (- e - 1) = c * T').
    { subst c T'. rewrite <- Z.pow_add_r by lia. f_equal. lia. }
    assert (H2T : 2 ^ (- e) = 2 * (c * T')).
    { rewrite <- HT. replace (- e) with (Z.succ (- e - 1)) at 1 by lia. apply Z.pow_succ_r. lia. }
    rewrite HT, H2T, H2T'.
    set (n' := (Z.pos m' + T') / (2 * T')).
    pose proof (Z.mul_succ_div_gt (Z.pos m' + T') (2 * T') ltac:(lia)) as Hn'.
    fold n' in Hn'.
    apply Z.lt_succ_r. apply Z.div_lt_upper_bound; [nia|].
    change (2 ^ 52) with 4503599627370496 in Hv'.
    change (2 ^ 53) with 9007199254740992 in Hm. nia.
  - apply Z.div_le_mono; [apply pow2_pos; lia|lia].
Qed.

Lemma blend_of_quot n nb :
  0 <= n <= 100 → 0 <= nb <= 100 →
  truncate (blend_of n nb) = Some (Z.quot (n + nb - 20) 2).
Proof.
  intros Hn Hnb.
  assert (Hall : forallb (fun n => forallb (blend_of_is_quot n) (seqZ 0 101)) (seqZ 0 101) = true)
    by (vm_compute; reflexivity).
  rewrite forallb_forall in Hall.
  specialize (Hall n). rewrite forallb_forall in Hall.
  assert (Hin : blend_of_is_quot n nb = true).
  { apply Hall; apply list_elem_of_In, elem_of_seqZ; lia. }
  unfold blend_of_is_quot in Hin.
  destruct (truncate (blend_of n nb)) as [z|]; [|discriminate].
  apply Z.eqb_eq in Hin. by subst.
Qed.

(** The score in closed form. For a matched record whose renewable
    output is finite, whose load is a number other than zero and whose
    battery charge lies in its documented range from 0 to 100, the
    logistic term rounds to an integer [k] from 0 to 100, the battery
    charge to the integer [nb] nearest to it, and the score is
    [(k + nb - 20) / 2] with the half discarded toward zero. It is never
    above 90, and it can be negative, down to -10. *)
Theorem Score_closed_form (pl : NodeNumber) (net : http_outcome)
    (state : CycleState) (pod : Pod) (nodeName : string)
    (data : list LocationData) (n : NodeInfo) (d : LocationData) :
  (∀ y, is_nan y = false → nonneg (math_Pow math_E y) = true) →
  GetData net = (data, None) →
  index (SnapshotNodeInfos (fh pl))
        (IndexFunc (SnapshotNodeInfos (fh pl)) (named nodeName)) = Done n →
  GetLocationData (label (node_Labels (NodeInfo_Node n)) "location") data = Done d →
  is_finite (RenewableOutput d) = true →
  is_number (PrimaryLoad d) = true →
  valid_binary prec emax (BatteryCharge d) = true →
  fle (of_Z 0) (BatteryCharge d) = true →
  fle (BatteryCharge d) (of_Z 100) = true →
  let nb := round_int (BatteryCharge d) in
  ∃ k, 0 <= k <= 100 ∧ 0 <= nb <= 100 ∧
    math_Round (spec_renewScore d) = of_Z k ∧
    Score pl net state pod nodeName = Done (Z.quot (k + nb - 20) 2, StatusNil) ∧
    -10 <= Z.quot (k + nb - 20) 2 <= 90.
Proof.
  intros HPow Hget Hn Hd Hro Hpl Hbv Hb0 Hb100 nb.
  rewrite (Score_matched pl net state pod nodeName data n d Hget Hn Hd).
  destruct (round_logistic_range _ (HPow _ (exponent_not_nan d Hro Hpl)))
    as (k & Hk & Hround).
  destruct (math_Round_percentage _ Hbv Hb0 Hb100) as (Hnb & Hroundb). fold nb in Hnb, Hroundb.
  exists k. split; [exact Hk|]. split; [exact Hnb|].
  split; [exact Hround|].
  assert (Hblend : blend d = blend_of k nb).
  { unfold blend, blend_of. rewrite Hround, Hroundb. reflexivity. }
  assert (Hq : -10 <= Z.quot (k + nb - 20) 2 <= 90).
  { split.
    - apply Z.quot_le_lower_bound; lia.
    - apply Z.quot_le_upper_bound; lia. }
  split; [|exact Hq].
  rewrite Hblend, (int64_of_float64_truncate _ _ (blend_of_quot k nb Hk Hnb)); [reflexivity|].
  unfold int64_min, int64_max. lia.
Qed.

(** A higher battery charge never lowers the score: of two matched
    records with the same renewable output and the same load, and battery
    charges from 0 to 100, the one with the higher charge scores at least
    as much. *)
Theorem Score_monotone_in_battery (pl pl' : NodeNumber) (net net' : http_outcome)
    (state state' : CycleState) (pod pod' : Pod) (nodeName nodeName' : string)
    (data data' : list LocationData) (n n' : NodeInfo) (d d' : LocationData) :
  (∀ y, is_nan y = false → nonneg (math_Pow math_E y) = true) →
  GetData net = (data, None) → GetData net' = (data', None) →
  index (SnapshotNodeInfos (fh pl))
        (IndexFunc (SnapshotNodeInfos (fh pl)) (named nodeName)) = Done n →
  index (SnapshotNodeInfos (fh pl'))
        (IndexFunc (SnapshotNodeInfos (fh pl')) (named nodeName')) = Done n' →
  GetLocationData (label (node_Labels (NodeInfo_Node n)) "location") data = Done d →
  GetLocationData (label (node_Labels (NodeInfo_Node n')) "location") data' = Done d' →
  RenewableOutput d' = RenewableOutput d → PrimaryLoad d' = PrimaryLoad d →
  is_finite (RenewableOutput d) = true →
  is_number (PrimaryLoad d) = true →
  valid_binary prec emax (BatteryCharge d) = true →
  valid_binary prec emax (BatteryCharge d') = true →
  fle (of_Z 0) (BatteryCharge d) = true →
  fle (BatteryCharge d) (BatteryCharge d') = true →
  fle (BatteryCharge d') (of_Z 100) = true →
  ∃ z z', Score pl net state pod nodeName = Done (z, StatusNil) ∧
          Score pl' net' state' pod' nodeName' = Done (z', StatusNil) ∧
          z <= z'.
Proof.
  intros HPow Hget Hget' Hn Hn' Hd Hd' Hro' Hpl' Hro Hpl Hbv Hbv' Hb0 Hbb Hb100.
  rewrite (Score_matched pl net state pod nodeName data n d Hget Hn Hd).
  rewrite (Score_matched pl' net' state' pod' nodeName' data' n' d' Hget' Hn' Hd').
  destruct (round_logistic_range _ (HPow _ (exponent_not_nan d Hro Hpl)))
    as (k & Hk & Hround).
  destruct (fle_between _ _ Hb0 Hbb Hb100) as [Hb0' Hb100'].
  destruct (math_Round_percentage _ Hbv Hb0 Hb100') as (Hnb & Hroundb).
  destruct (math_Round_percentage _ Hbv' Hb0' Hb100) as (Hnb' & Hroundb').
  pose proof (round_int_mono _ _ Hbv Hbv' Hb0 Hbb Hb100) as Hmono.
  assert (Hblend : blend d = blend_of k (round_int (BatteryCharge d))).
  { unfold blend, blend_of. rewrite Hround, Hroundb. reflexivity. }
  assert (Hblend' : blend d' = blend_of k (round_int (BatteryCharge d'))).
  { unfold blend, blend_of. rewrite Hro', Hpl', Hround, Hroundb'. reflexivity. }
  exists (Z.quot (k + round_int (BatteryCharge d) - 20) 2),
         (Z.quot (k + round_int (BatteryCharge d') - 20) 2).
  rewrite Hblend, Hblend'.
  rewrite (int64_of_float64_truncate _ _ (blend_of_quot _ _ Hk Hnb)).
  2:{ assert (-10 <= Z.quot (k + round_int (BatteryCharge d) - 20) 2 <= 90).
      { split; [apply Z.quot_le_lower_bound|apply Z.quot_le_upper_bound]; lia. }
      unfold int64_min, int64_max. lia. }
  rewrite (int64_of_float64_truncate _ _ (blend_of_quot _ _ Hk Hnb')).
  2:{ assert (-10 <= Z.quot (k + round_int (BatteryCharge d') - 20) 2 <= 90).
      { split; [apply Z.quot_le_lower_bound|apply Z.quot_le_upper_bound]; lia. }
      unfold int64_min, int64_max. lia. }
  split; [reflexivity|]. split; [reflexivity|].
  apply Z.quot_le_mono; lia.
Qed.
End ScoringRange.

Section ScoringSpecialCases.
Context `{Externals}.

Lemma fsub_diag (s : bool) (m : positive) e :
  fsub (S754_finite s m e) (S754_finite s m e) = S754_zero false.
Proof.
  unfold fsub, SFsub. rewrite Z.sub_diag. reflexivity.
Qed.

(** When the renewable output equals the load, whatever their size, the
    logistic term is 50 and contributes 25: the score is the [int64]
    conversion of [25 + (round(batteryCharge) - 20) * 0.5]. [math.Pow] is
    taken at its documented value [Pow(x, ±0) = 1]. *)
Theorem Score_balanced (pl : NodeNumber) (net : http_outcome)
    (state : CycleState) (pod : Pod) (nodeName : string)
    (data : list LocationData) (n : NodeInfo) (d : LocationData) :
  (∀ s, math_Pow math_E (S754_zero s) = of_Z 1) →
  GetData net = (data, None) →
  index (SnapshotNodeInfos (fh pl))
        (IndexFunc (SnapshotNodeInfos (fh pl)) (named nodeName)) = Done n →
  GetLocationData (label (node_Labels (NodeInfo_Node n)) "location") data = Done d →
  is_number (PrimaryLoad d) = true →
  RenewableOutput d = PrimaryLoad d →
  spec_renewScore d = of_Z 50 ∧
  Score pl net state pod nodeName =
    Done (int64_of_float64
            (fadd (of_Z 25)
                  (fmul (fsub (math_Round (BatteryCharge d)) (of_Z 20)) (of_Z_exp 1 (-1)))),
          StatusNil).
Proof.
  intros HPow Hget Hn Hd Hpl Hro.
  assert (Hscore : spec_renewScore d = of_Z 50).
  { unfold spec_renewScore, spec_renewDiff. rewrite Hro.
    destruct (PrimaryLoad d) as [| | |sp mp ep]; try discriminate.
    rewrite fsub_diag.
    change (fdiv (S754_zero false) (S754_finite sp mp ep)) with (S754_zero (xorb false sp)).
    change (of_Z (-5)) with (S754_finite true 5629499534213120 (-50)).
    change (fmul (S754_finite true 5629499534213120 (-50)) (S754_zero (xorb false sp)))
      with (S754_zero (xorb true (xorb false sp))).
    rewrite HPow. reflexivity. }
  split; [exact Hscore|].
  rewrite (Score_matched pl net state pod nodeName data n d Hget Hn Hd).
  do 2 f_equal. unfold blend. fold (spec_renewDiff d). fold (spec_renewScore d).
  rewrite Hscore. reflexivity.
Qed.

(** When the renewable output and the load are both zero the quotient is
    NaN, the NaN reaches the conversion to [int64], and the score is
    whatever the platform converts NaN to: no fallback is substituted.
    [math.Pow] is taken at its documented value [Pow(x, NaN) = NaN]. *)
Theorem Score_zero_over_zero (pl : NodeNumber) (net : http_outcome)
    (state : CycleState) (pod : Pod) (nodeName : string)
    (data : list LocationData) (n : NodeInfo) (d : LocationData) :
  math_Pow math_E S754_nan = S754_nan →
  GetData net = (data, None) →
  index (SnapshotNodeInfos (fh pl))
        (IndexFunc (SnapshotNodeInfos (fh pl)) (named nodeName)) = Done n →
  GetLocationData (label (node_Labels (NodeInfo_Node n)) "location") data = Done d →
  is_zero (PrimaryLoad d) = true →
  is_zero (RenewableOutput d) = true →
  blend d = S754_nan ∧
  Score pl net state pod nodeName = Done (int64_unrepresentable S754_nan, StatusNil).
Proof.
  intros HPow Hget Hn Hd Hpl Hro.
  assert (Hblend : blend d = S754_nan).
  { unfold blend.
    destruct (PrimaryLoad d) as [sp| | |]; try discriminate.
    destruct (RenewableOutput d) as [sr| | |]; try discriminate.
    replace (fdiv (fsub (S754_zero sr) (S754_zero sp)) (S754_zero sp)) with S754_nan
      by (destruct sr, sp; reflexivity).
    change (fmul (of_Z (-5)) S754_nan) with S754_nan.
    rewrite HPow. reflexivity. }
  split; [exact Hblend|].
  rewrite (Score_matched pl net state pod nodeName data n d Hget Hn Hd), Hblend.
  reflexivity.
Qed.
End ScoringSpecialCases.


(** ** The further theorems at work on the model *)

Section MoreExamples.

Lemma Score_missing_label_witness :
  Score (H := Model.externals) bare_plugin (BodyRead Model.payload_sample)
        ∅ sample_pod "node1"
  = Panic (IndexOutOfRange (-1) 1).
Proof.
  rewrite (Score_missing_label (H := Model.externals) bare_plugin
             (BodyRead Model.payload_sample) ∅ sample_pod "node1"
             [dk_record 80 120 100] (bare_node "node1"));
    vm_compute; reflexivity.
Defined.

Lemma Score_depends_only_on_witness :
  Score (H := Model.externals) sample_plugin (BodyRead Model.payload_sample)
        ∅ sample_pod "node2"
  = Score (H := Model.externals) zoned_plugin (BodyRead Model.payload_sample)
          {[ preScoreStateKey := {| podSuffixNumber := 3 |} ]}
          {| pod_Name := "other" |} "node2".
Proof.
  apply (Score_depends_only_on (H := Model.externals) sample_plugin zoned_plugin
           (BodyRead Model.payload_sample) (BodyRead Model.payload_sample)
           ∅ {[ preScoreStateKey := {| podSuffixNumber := 3 |} ]}
           sample_pod {| pod_Name := "other" |} "node2"
           [dk_record 80 120 100] [dk_record 80 120 100]).
  - repeat constructor; vm_compute; reflexivity.
  - vm_compute. reflexivity.
  - vm_compute. reflexivity.
  - repeat constructor; reflexivity.
Defined.

Lemma Score_other_records_witness :
  Score (H := ModelGrid.externals) sample_plugin (BodyRead ModelGrid.payload_three)
        ∅ sample_pod "node2"
  = Score (H := ModelGrid.externals) sample_plugin (BodyRead Model.payload_sample)
          ∅ sample_pod "node2" ∧
  Score (H := ModelGrid.externals) sample_plugin (BodyRead ModelGrid.payload_three)
        ∅ sample_pod "node2"
  = Done (int64_of_float64 (H := ModelGrid.externals)
            (blend (H := ModelGrid.externals) (dk_record 80 120 100)),
          StatusNil).
Proof.
  apply (Score_other_records (H := ModelGrid.externals) sample_plugin
           (BodyRead ModelGrid.payload_three) (BodyRead Model.payload_sample)
           ∅ sample_pod "node2"
           [ModelGrid.se_record 55 10 100] [dk_record 10 5 100]
           (dk_record 80 120 100) (sample_node "node2" "dk")).
  - vm_compute. reflexivity.
  - vm_compute. reflexivity.
  - vm_compute. reflexivity.
  - vm_compute. reflexivity.
  - repeat constructor. vm_compute. discriminate.
Defined.

Lemma PreScore_frame_witness :
  StatusNil = StatusNil ∧
  (∀ key, key ≠ "PreScoreNodeNumber" →
     ({[ preScoreStateKey := {| podSuffixNumber := 7 |} ]} : CycleState) !! key
     = (∅ : CycleState) !! key) ∧
  (({[ preScoreStateKey := {| podSuffixNumber := 7 |} ]} : CycleState) = ∅ ∨
   ∃ d, 0 <= d <= 9 ∧
        ({[ preScoreStateKey := {| podSuffixNumber := 7 |} ]} : CycleState)
          !! "PreScoreNodeNumber" = Some {| podSuffixNumber := d |}).
Proof.
  apply (PreScore_frame sample_plugin ∅ _ {| pod_Name := "pod7" |} [] StatusNil).
  vm_compute. reflexivity.
Defined.

Lemma PreScore_idempotent_witness :
  PreScore sample_plugin {[ preScoreStateKey := {| podSuffixNumber := 7 |} ]}
           {| pod_Name := "pod7" |} []
  = Done ({[ preScoreStateKey := {| podSuffixNumber := 7 |} ]}, StatusNil).
Proof.
  apply (PreScore_idempotent sample_plugin ∅ _ {| pod_Name := "pod7" |} [] StatusNil).
  reflexivity.
Defined.

Lemma PreScore_overwrites_witness :
  dom (<[ preScoreStateKey := {| podSuffixNumber := 3 |} ]>
         ({[ preScoreStateKey := {| podSuffixNumber := 7 |} ]} : CycleState))
  ⊆ dom (∅ : CycleState) ∪ {[ "PreScoreNodeNumber" ]}.
Proof.
  apply (PreScore_overwrites sample_plugin ∅
           {[ preScoreStateKey := {| podSuffixNumber := 7 |} ]}
           (<[ preScoreStateKey := {| podSuffixNumber := 3 |} ]>
              {[ preScoreStateKey := {| podSuffixNumber := 7 |} ]})
           {| pod_Name := "pod7" |} {| pod_Name := "job-3" |} [] StatusNil StatusNil);
    reflexivity.
Defined.

Lemma New_args_do_not_change_Score_witness :
  Score (H := Model.externals)
        {| fh := fh sample_plugin; reverse := true |}
        (BodyRead Model.payload_sample) ∅ sample_pod "node2"
  = Score (H := Model.externals)
          {| fh := fh sample_plugin; reverse := false |}
          (BodyRead Model.payload_sample) ∅ sample_pod "node2".
Proof.
  apply (New_args_do_not_change_Score (H := Model.externals) (H0 := ModelArgs.decoder)
           (Some (Some true)) None (fh sample_plugin) _ _ None None);
    reflexivity.
Defined.

Lemma Score_closed_form_witness :
  ∃ k, 0 <= k <= 100 ∧ 0 <= round_int (of_Z 80) <= 100 ∧
    math_Round (spec_renewScore (H := Model.externals) (dk_record 80 120 100)) = of_Z k ∧
    Score (H := Model.externals) sample_plugin (BodyRead Model.payload_sample)
          ∅ sample_pod "node2" = Done (Z.quot (k + round_int (of_Z 80) - 20) 2, StatusNil) ∧
    -10 <= Z.quot (k + round_int (of_Z 80) - 20) 2 <= 90.
Proof.
  apply (Score_closed_form (H := Model.externals) sample_plugin
           (BodyRead Model.payload_sample) ∅ sample_pod "node2"
           [dk_record 80 120 100] (sample_node "node2" "dk") (dk_record 80 120 100));
    [exact Model_Pow_nonneg|vm_compute; reflexivity ..].
Defined.

Lemma Score_monotone_in_battery_witness :
  ∃ z z', Score (H := ModelGrid.externals) sample_plugin
                (BodyRead ModelGrid.payload_low_battery) ∅ sample_pod "node2"
          = Done (z, StatusNil) ∧
          Score (H := ModelGrid.externals) zoned_plugin
                (BodyRead Model.payload_sample) ∅ sample_pod "node2"
          = Done (z', StatusNil) ∧
          z <= z'.
Proof.
  apply (Score_monotone_in_battery (H := ModelGrid.externals) sample_plugin zoned_plugin
           (BodyRead ModelGrid.payload_low_battery) (BodyRead Model.payload_sample)
           ∅ ∅ sample_pod sample_pod "node2" "node2"
           [dk_record 30 120 100] [dk_record 80 120 100]
           (sample_node "node2" "dk") (zoned_node "node2" "dk" "b")
           (dk_record 30 120 100) (dk_record 80 120 100));
    [exact Model_Pow_nonneg|vm_compute; reflexivity ..].
Defined.

(** The two scores of the lemma above are 41 and 66. *)
Lemma Score_low_and_high_battery :
  Score (H := ModelGrid.externals) sample_plugin
        (BodyRead ModelGrid.payload_low_battery) ∅ sample_pod "node2"
  = Done (41, StatusNil) ∧
  Score (H := ModelGrid.externals) zoned_plugin
        (BodyRead Model.payload_sample) ∅ sample_pod "node2"
  = Done (66, StatusNil).
Proof. split; vm_compute; reflexivity. Qed.

Lemma Score_balanced_witness :
  Score (H := Model.externals) sample_plugin (BodyRead Model.payload_overcharged)
        ∅ sample_pod "node2"
  = Done (int64_of_float64 (H := Model.externals)
            (fadd (of_Z 25)
                  (fmul (fsub (math_Round (of_Z 500)) (of_Z 20)) (of_Z_exp 1 (-1)))),
          StatusNil).
Proof.
  apply (Score_balanced (H := Model.externals) sample_plugin
           (BodyRead Model.payload_overcharged) ∅ sample_pod "node2"
           [dk_record 500 100 100] (sample_node "node2" "dk") (dk_record 500 100 100)).
  - intros []; reflexivity.
  - vm_compute. reflexivity.
  - vm_compute. reflexivity.
  - vm_compute. reflexivity.
  - reflexivity.
  - reflexivity.
Defined.

Lemma Score_zero_over_zero_witness :
  Score (H := ModelIdle.externals) sample_plugin (BodyRead ModelIdle.payload_idle)
        ∅ sample_pod "node2"
  = Done (int64_min, StatusNil).
Proof.
  apply (Score_zero_over_zero (H := ModelIdle.externals) sample_plugin
           (BodyRead ModelIdle.payload_idle) ∅ sample_pod "node2"
           [dk_record 80 0 0] (sample_node "node2" "dk") (dk_record 80 0 0));
    vm_compute; reflexivity.
Defined.
(** C9, as the claim has it, fails on the body [null]: it does not open
    as an array, and [GetData] returns no error for it, [json.Unmarshal]
    decoding [null] into a nil slice. *)
Lemma GetData_null_is_no_array :
  json_array_opening "null" = false ∧
  GetData (H := ModelGrid.externals) (BodyRead "null") = ([], None).
Proof. split; reflexivity. Qed.

Lemma GetData_error_iff_decoder_witness :
  GetData (H := ModelGrid.externals) (BodyRead "null") = ([], None) ∧
  json_array_opening "null" = false.
Proof.
  apply (GetData_error_iff_decoder (H := ModelGrid.externals) (BodyRead "null"));
    reflexivity.
Defined.
End MoreExamples.
